(** * MovieBase: feed controllers, detail modal and card formatting

    A shallow embedding of the browser code of the MovieBase catalog:

    - [js/pages/search.js] and [js/pages/nowPlaying.js] (classes
      [SearchPage] and [NowPlayingPage]): the two paginated feed
      controllers;
    - [js/components/movieDetails.js] (class [Modal]): the overlay that
      shows the detail view;
    - [js/components/movieCard.js] (class [MovieCard]): rating
      formatting, overview truncation and HTML escaping.

    Conventions.  A JavaScript string is the list of its UTF-16 code
    units ([list N]); text that is ASCII by construction (a formatted
    rating, a fixed message) is a Rocq [string].  A JavaScript number is
    a binary64 float.  A property that may hold [null], [undefined] or a
    value is a [jsopt].  An [async] method is split at its [await]: the
    part that runs synchronously up to the suspension, and the part that
    resumes when the awaited promise settles. *)

From Stdlib Require Import ZArith NArith Bool Ascii String.
From Stdlib Require Import PrimFloat FloatOps SpecFloat FloatAxioms DecimalString.
From stdpp Require Import base option list gmap.

Set Default Proof Using "Type".
#[local] Set Warnings "-inexact-float".

(** ** JavaScript values *)

Inductive jsopt (A : Type) : Type :=
| JsNull
| JsUndefined
| JsVal (a : A).
Arguments JsNull {A}.
Arguments JsUndefined {A}.
Arguments JsVal {A} a.

Module JsString.

(** A string literal of the source, as code units. *)
Definition lit (s : string) : list N :=
  map N_of_ascii (list_ascii_of_string s).

(** [s.substring(0, n)] *)
Definition substring0 (n : nat) (s : list N) : list N := take n s.

(** The code points that [String.prototype.trim] strips: ECMAScript
    WhiteSpace and LineTerminator (all of them in the BMP). *)
Definition is_white_space (c : N) : bool :=
  ((9 <=? c) && (c <=? 13) || (c =? 32) || (c =? 160) || (c =? 5760)
   || (8192 <=? c) && (c <=? 8202) || (c =? 8232) || (c =? 8233)
   || (c =? 8239) || (c =? 8287) || (c =? 12288) || (c =? 65279))%N.

Fixpoint trimStart (s : list N) : list N :=
  match s with
  | [] => []
  | c :: s' => if is_white_space c then trimStart s' else s
  end.

Definition trimEnd (s : list N) : list N := rev (trimStart (rev s)).

(** [s.trim()] *)
Definition trim (s : list N) : list N := trimEnd (trimStart s).

(** [s.replace(/c/g, rep)] for a pattern that is one literal
    character [c]. *)
Definition replace_all (c : N) (rep : list N) (s : list N) : list N :=
  flat_map (fun u => if (u =? c)%N then rep else [u]) s.

Definition is_high_surrogate (c : N) : bool :=
  ((55296 <=? c) && (c <=? 56319))%N.
Definition is_low_surrogate (c : N) : bool :=
  ((56320 <=? c) && (c <=? 57343))%N.

(** A string is well formed when every high surrogate is followed by
    a low one and every low surrogate follows a high one: truncation
    that is safe for code points keeps well-formed strings well
    formed. *)
Fixpoint well_formed (s : list N) : bool :=
  match s with
  | [] => true
  | c :: s' =>
      if is_high_surrogate c then
        match s' with
        | d :: s'' => is_low_surrogate d && well_formed s''
        | [] => false
        end
      else negb (is_low_surrogate c) && well_formed s'
  end.

Definition ellipsis : list N := lit "...".

End JsString.

(** ** Text truncation *)

(** [truncateText(text, maxLength)]: the same method text in
    [SearchPage], [NowPlayingPage] and [MovieCard]. *)
Definition truncateText (text : jsopt (list N)) (maxLength : nat) : list N :=
  match text with
  | JsVal (c :: s) =>
      if (maxLength <? length (c :: s))%nat
      then JsString.substring0 maxLength (c :: s) ++ JsString.ellipsis
      else c :: s
  | _ => []
  end.

(** [MovieCard.truncateOverview()], on [this.movie.overview] and
    [this.options.overviewLength]. *)
Definition truncateOverview (overview : jsopt (list N)) (overviewLength : nat)
  : list N :=
  match overview with
  | JsVal (c :: s) =>
      if (length (c :: s) <=? overviewLength)%nat then c :: s
      else JsString.trim (JsString.substring0 overviewLength (c :: s))
             ++ JsString.ellipsis
  | _ => []
  end.

(** ** HTML escaping *)

Module Html.
Definition amp : N := 38.
Definition lt : N := 60.
Definition gt : N := 62.
Definition quot : N := 34.
Definition apos : N := 39.

(** The characters that [escapeHtml] is there to remove. *)
Definition markup (c : N) : bool :=
  ((c =? lt) || (c =? gt) || (c =? quot) || (c =? apos))%N.

(** What the documentation of [escapeHtml] promises for one character:
    its entity, or the character itself. *)
Definition entity (c : N) : list N :=
  if (c =? amp)%N then JsString.lit "&amp;"
  else if (c =? lt)%N then JsString.lit "&lt;"
  else if (c =? gt)%N then JsString.lit "&gt;"
  else if (c =? quot)%N then JsString.lit "&quot;"
  else if (c =? apos)%N then JsString.lit "&#039;"
  else [c].
End Html.

(** [MovieCard.escapeHtml(unsafe)]: five passes, in the order of the
    source. *)
Definition escapeHtml (unsafe : jsopt (list N)) : list N :=
  match unsafe with
  | JsVal (c :: s) =>
      JsString.replace_all Html.apos (JsString.lit "&#039;")
        (JsString.replace_all Html.quot (JsString.lit "&quot;")
           (JsString.replace_all Html.gt (JsString.lit "&gt;")
              (JsString.replace_all Html.lt (JsString.lit "&lt;")
                 (JsString.replace_all Html.amp (JsString.lit "&amp;")
                    (c :: s)))))
  | _ => []
  end.

(** ** Rating formatting *)

Module Number.
Section Number.

(** [Number::toString] of the runtime.  [toFixed] falls back on it only
    for a finite magnitude of at least [10^21]; its digit generation is
    not part of this repository and stays a parameter. *)
Variable toString : float -> string.

Definition decimal (n : Z) : string :=
  NilZero.string_of_uint (N.to_uint (Z.to_N n)).

(** The integer [n] for which [n / 10 - m * 2^e] is closest to zero,
    the larger one on a tie (step 10.a of [toFixed]). *)
Definition tenths (m : positive) (e : Z) : Z :=
  if (0 <=? e)%Z then (Z.pos m * 2 ^ e * 10)%Z
  else ((20 * Z.pos m + 2 ^ (- e)) / 2 ^ (1 - e))%Z.

(** [m * 2^e >= 10^21] *)
Definition huge (m : positive) (e : Z) : bool :=
  if (0 <=? e)%Z then (10 ^ 21 <=? Z.pos m * 2 ^ e)%Z
  else (10 ^ 21 * 2 ^ (- e) <=? Z.pos m)%Z.

(** [x.toFixed(1)] *)
Definition toFixed1 (x : float) : string :=
  match Prim2SF x with
  | S754_nan => "NaN"
  | S754_infinity false => "Infinity"
  | S754_infinity true => "-Infinity"
  | S754_zero _ => "0.0"
  | S754_finite s m e =>
      if huge m e then toString x
      else
        let n := tenths m e in
        ((if s then "-" else "")
           ++ decimal (n / 10) ++ "." ++ decimal (n mod 10))%string
  end.

(** [parseFloat(x)] on an argument that already is a number: the
    number itself, except that [-0] is printed as ["0"] and read back
    as [+0]. *)
Definition parseFloat (x : float) : float :=
  match Prim2SF x with
  | S754_zero _ => 0%float
  | _ => x
  end.

(** [!x] for a number: [0], [-0] and [NaN] are falsy. *)
Definition falsy (x : float) : bool :=
  match Prim2SF x with
  | S754_zero _ | S754_nan => true
  | _ => false
  end.

End Number.
End Number.

Section Rating.

Variable toString : float -> string.

(** [MovieCard.formatRating()], on [this.movie.vote_average]. *)
Definition formatRating (vote_average : jsopt float) : string :=
  match vote_average with
  | JsNull | JsUndefined => "N/A"
  | JsVal x =>
      if PrimFloat.is_nan x then "N/A"
      else Number.toFixed1 toString (Number.parseFloat x)
  end.

(** The rating of a card built by [SearchPage.createMovieCard] and
    [NowPlayingPage.createMovieCard]:
    [movie.vote_average ? movie.vote_average.toFixed(1) : "N/A"]. *)
Definition createMovieCard_rating (vote_average : jsopt float) : string :=
  match vote_average with
  | JsNull | JsUndefined => "N/A"
  | JsVal x =>
      if Number.falsy x then "N/A" else Number.toFixed1 toString x
  end.

End Rating.

(** ** The modal presenter ([class Modal]) *)

Module Modal.

Inductive Display := DisplayUnset | DisplayFlex | DisplayBlock | DisplayNone.

Section Modal.

(** The markup handed to the modal: it is stored as the [innerHTML] of
    the body and never inspected.  [blank] is the empty string. *)
Variable Content : Type.
Variable blank : Content.

Record t := mk {
  isOpen : bool;
  body : Content;              (* .modal-body innerHTML *)
  overlay_display : Display;   (* overlay.style.display *)
  overlay_open : bool;         (* overlay.classList has modal-open *)
  modal_open : bool;           (* modal.classList has modal-open *)
  scroll_locked : bool;        (* document.body.style.overflow is hidden *)
  close_focused : bool;        (* the close button has the focus *)
  frames : nat;                (* callbacks left with requestAnimationFrame *)
  timers : nat;                (* 300 ms timers started by close() *)
  attached : bool              (* the overlay is in the document *)
}.

(** [new Modal()] *)
Definition create : t :=
  mk false blank DisplayUnset false false false false 0 0 true.

(** [open(content)] *)
Definition open (content : Content) (m : t) : t :=
  if isOpen m then m
  else mk true content DisplayFlex (overlay_open m) (modal_open m)
          true true (S (frames m)) (timers m) (attached m).

(** The callback that [open] hands to [requestAnimationFrame]. *)
Definition animation_frame (m : t) : t :=
  match frames m with
  | O => m
  | S n => mk (isOpen m) (body m) (overlay_display m) true true
              (scroll_locked m) (close_focused m) n (timers m) (attached m)
  end.

(** [close()] up to [setTimeout]. *)
Definition close (m : t) : t :=
  if negb (isOpen m) then m
  else mk (isOpen m) (body m) (overlay_display m) false false
          (scroll_locked m) (close_focused m) (frames m) (S (timers m))
          (attached m).

(** The callback of [close], 300 ms later. *)
Definition close_timeout (m : t) : t :=
  match timers m with
  | O => m
  | S n => mk false (body m) DisplayNone (overlay_open m) (modal_open m)
              false (close_focused m) (frames m) n (attached m)
  end.

(** [setContent(content)] *)
Definition setContent (content : Content) (m : t) : t :=
  mk (isOpen m) content (overlay_display m) (overlay_open m) (modal_open m)
     (scroll_locked m) (close_focused m) (frames m) (timers m) (attached m).

(** [getIsOpen()] *)
Definition getIsOpen (m : t) : bool := isOpen m.

(** [toggle(content)] *)
Definition toggle (content : Content) (m : t) : t :=
  if isOpen m then close m else open content m.

(** [destroy()] *)
Definition destroy (m : t) : t :=
  mk false (body m) (overlay_display m) (overlay_open m) (modal_open m)
     (scroll_locked m) (close_focused m) (frames m) (timers m) false.

End Modal.

Arguments mk {Content}.
Arguments isOpen {Content}.
Arguments body {Content}.
Arguments frames {Content}.
Arguments timers {Content}.
Arguments open {Content}.
Arguments close {Content}.
Arguments close_timeout {Content}.
Arguments animation_frame {Content}.
Arguments setContent {Content}.

End Modal.

(** ** The detail aggregator ([openMovieDetails]) *)

Module Details.

Inductive Endpoint := MovieDetails | MovieVideos | MovieReviews | SimilarMovies.

Section Details.

(** A parsed response of the remote API. *)
Variable Json : Type.

(** The three kinds of markup that [openMovieDetails] gives to the
    modal.  The text that [createMovieDetailsContent] builds is kept
    symbolic: it is a function of the four responses. *)
Inductive Markup :=
| Blank
| LoadingMovieDetails
| FailedToLoad
| MovieDetailsContent (details videos reviews similar : Json).

(** An invocation of [openMovieDetails(movie)] that is suspended at
    [await Promise.all([...])]: the movie it was called for and the
    sub-requests that have been fulfilled so far. *)
Record Invocation := mkInvocation {
  movie_id : N;
  details : option Json;
  videos : option Json;
  reviews : option Json;
  similar : option Json
}.

Record World := mkWorld {
  MovieModal : Modal.t Markup;           (* window.MovieModal *)
  suspended : list Invocation;
  requested : list (Endpoint * N)        (* calls made to window.TMDbAPI *)
}.

Definition init : World := mkWorld (Modal.create Markup Blank) [] [].

(** [openMovieDetails(movie)] up to the [await]: the same text in
    [SearchPage] and [NowPlayingPage]. *)
Definition openMovieDetails (id : N) (w : World) : World :=
  mkWorld (Modal.open LoadingMovieDetails (MovieModal w))
          (suspended w ++ [mkInvocation id None None None None])
          (requested w ++ [(MovieDetails, id); (MovieVideos, id);
                           (MovieReviews, id); (SimilarMovies, id)]).

Definition slot (e : Endpoint) (c : Invocation) : option Json :=
  match e with
  | MovieDetails => details c
  | MovieVideos => videos c
  | MovieReviews => reviews c
  | SimilarMovies => similar c
  end.

Definition fill (e : Endpoint) (j : Json) (c : Invocation) : Invocation :=
  match e with
  | MovieDetails => mkInvocation (movie_id c) (Some j) (videos c) (reviews c) (similar c)
  | MovieVideos => mkInvocation (movie_id c) (details c) (Some j) (reviews c) (similar c)
  | MovieReviews => mkInvocation (movie_id c) (details c) (videos c) (Some j) (similar c)
  | SimilarMovies => mkInvocation (movie_id c) (details c) (videos c) (reviews c) (Some j)
  end.

(** The rest of the [try] block, when [Promise.all] is fulfilled. *)
Definition resume_fulfilled (d v r s : Json) (w : World) : World :=
  mkWorld (Modal.setContent (MovieDetailsContent d v r s) (MovieModal w))
          (suspended w) (requested w).

(** The [catch] block, when [Promise.all] is rejected. *)
Definition resume_rejected (w : World) : World :=
  mkWorld (Modal.setContent FailedToLoad (MovieModal w))
          (suspended w) (requested w).

Definition forget (i : nat) (w : World) : World :=
  mkWorld (MovieModal w) (delete i (suspended w)) (requested w).

Definition store (i : nat) (c : Invocation) (w : World) : World :=
  mkWorld (MovieModal w) (<[i := c]> (suspended w)) (requested w).

Definition on_modal (f : Modal.t Markup -> Modal.t Markup) (w : World) : World :=
  mkWorld (f (MovieModal w)) (suspended w) (requested w).

(** What can happen next in the page. *)
Inductive Event :=
| CardClick (id : N)                          (* click on the card of a movie *)
| Fulfil (i : nat) (e : Endpoint) (j : Json)  (* a sub-request of invocation [i] succeeds *)
| Reject (i : nat) (e : Endpoint)             (* a sub-request of invocation [i] fails *)
| CloseClick                                  (* close button, overlay or Escape *)
| CloseTimeout                                (* the timer of [close] fires *)
| AnimationFrame.

(** [Promise.all] is fulfilled when the last of the four is, and
    rejected as soon as one is. *)
Definition step (ev : Event) (w : World) : World :=
  match ev with
  | CardClick id => openMovieDetails id w
  | Fulfil i e j =>
      match suspended w !! i with
      | Some c =>
          match slot e c with
          | Some _ => w
          | None =>
              let c' := fill e j c in
              match details c', videos c', reviews c', similar c' with
              | Some d, Some v, Some r, Some s =>
                  resume_fulfilled d v r s (forget i w)
              | _, _, _, _ => store i c' w
              end
          end
      | None => w
      end
  | Reject i e =>
      match suspended w !! i with
      | Some c =>
          match slot e c with
          | Some _ => w
          | None => resume_rejected (forget i w)
          end
      | None => w
      end
  | CloseClick => on_modal Modal.close w
  | CloseTimeout => on_modal Modal.close_timeout w
  | AnimationFrame => on_modal Modal.animation_frame w
  end.

Definition run (evs : list Event) (w : World) : World :=
  foldl (fun w ev => step ev w) w evs.


End Details.

Arguments Blank {Json}.
Arguments LoadingMovieDetails {Json}.
Arguments FailedToLoad {Json}.
Arguments MovieDetailsContent {Json}.
Arguments CardClick {Json}.
Arguments Fulfil {Json}.
Arguments Reject {Json}.
Arguments CloseClick {Json}.
Arguments CloseTimeout {Json}.
Arguments AnimationFrame {Json}.
Arguments MovieModal {Json}.
Arguments suspended {Json}.
Arguments requested {Json}.

End Details.

(** ** Statements that can throw *)

Module Js.

Inductive Completion (A : Type) : Type :=
| Normal (a : A)
| Throw.
Arguments Normal {A} a.
Arguments Throw {A}.

(** A statement over a state [S]: how it completes, and the state it
    leaves. *)
Definition M (S A : Type) : Type := S -> Completion A * S.

Definition ret {S A} (a : A) : M S A := fun s => (Normal a, s).

Definition bind {S A B} (m : M S A) (k : A -> M S B) : M S B :=
  fun s =>
    match m s with
    | (Normal a, s') => k a s'
    | (Throw, s') => (Throw, s')
    end.

Definition throw {S A} : M S A := fun s => (Throw, s).

Definition gets {S A} (f : S -> A) : M S A := fun s => (Normal (f s), s).

Definition modify {S} (f : S -> S) : M S unit := fun s => (Normal tt, f s).

(** [try { body } catch (error) { handler } finally { final }] *)
Definition try_catch_finally {S} (body handler final : M S unit) : M S unit :=
  fun s =>
    let (c, s1) := body s in
    let (c', s2) :=
      match c with
      | Normal a => (Normal a, s1)
      | Throw => handler s1
      end in
    let (f, s3) := final s2 in
    match f with
    | Normal _ => (c', s3)
    | Throw => (Throw, s3)
    end.

(** The state that an event handler leaves, however it completes (an
    exception that nobody catches is reported and dropped). *)
Definition exec {S A} (m : M S A) (s : S) : S := snd (m s).

End Js.

Notation "x <- m ;; k" := (Js.bind m (fun x => k))
  (at level 60, m at next level, right associativity).
Notation "m ;;; k" := (Js.bind m (fun _ => k))
  (at level 60, right associativity).

(** ** What the remote API returns for a page of a feed *)

Module Tmdb.

(** A movie as the listing end points return it (the fields that the
    cards read). *)
Record Movie := mkMovie {
  id : N;
  title : jsopt (list N);
  vote_average : jsopt float;
  overview : jsopt (list N)
}.

(** The body of a page: [results], [page] and [total_pages].  (A body
    without [results] takes the same branch as one with no item.) *)
Record Page := mkPage {
  results : list Movie;
  page : nat;
  total_pages : nat
}.

(** How the promise of a page settles. *)
Inductive Outcome :=
| Fulfilled (data : Page)
| Rejected.

(** A call of [searchMovies(query, page)] or of
    [getNowPlayingMovies(page)] (which has no query). *)
Record Request := mkRequest {
  query : list N;
  number : nat
}.

(** The items that the answers logged in [log] returned for the pages
    of [q]. *)
Definition items_for (q : list N) (log : list (Request * Outcome))
  : list Movie :=
  flat_map (fun a =>
              match a with
              | (r, Fulfilled data) =>
                  if bool_decide (query r = q) then results data else []
              | (_, Rejected) => []
              end) log.

End Tmdb.

(** The children of a results grid. *)
Inductive GridNode :=
| Card (movie : Tmdb.Movie)
| NoResults
| ErrorMessage (message : string).

(** ** The search feed controller ([class SearchPage]) *)

Module SearchPage.

(** The fields of the instance that the paging protocol uses, the part
    of the document that its methods touch and the calls to
    [window.TMDbAPI.searchMovies] that have not settled yet.  The static
    page ([.app-header], [#movie-search]) is assumed to be there. *)
Record World := mk {
  currentPage : nat;
  isLoading : bool;
  hasMorePages : bool;
  searchQuery : list N;
  searchResults : list Tmdb.Movie;
  grid : option (list GridNode);    (* children of #search-results-grid;
                                       None while the search container
                                       is not in the document *)
  loading : option Modal.Display;   (* this.loadingElement, its display *)
  observing : bool;                 (* this.searchObserver is connected *)
  in_flight : list Tmdb.Request;    (* promises of searchMovies, pending *)
  sent : list Tmdb.Request;         (* every call of searchMovies so far *)
  answered : list (Tmdb.Request * Tmdb.Outcome)  (* the settled ones *)
}.

(** [new SearchPage()] *)
Definition init : World := mk 1 false true [] [] None None false [] [] [].

Definition set_isLoading (b : bool) (w : World) : World :=
  mk (currentPage w) b (hasMorePages w) (searchQuery w) (searchResults w)
     (grid w) (loading w) (observing w) (in_flight w) (sent w) (answered w).

Definition set_hasMorePages (b : bool) (w : World) : World :=
  mk (currentPage w) (isLoading w) b (searchQuery w) (searchResults w)
     (grid w) (loading w) (observing w) (in_flight w) (sent w) (answered w).

Definition set_currentPage (p : nat) (w : World) : World :=
  mk p (isLoading w) (hasMorePages w) (searchQuery w) (searchResults w)
     (grid w) (loading w) (observing w) (in_flight w) (sent w) (answered w).

Definition set_searchQuery (q : list N) (w : World) : World :=
  mk (currentPage w) (isLoading w) (hasMorePages w) q (searchResults w)
     (grid w) (loading w) (observing w) (in_flight w) (sent w) (answered w).

Definition set_searchResults (l : list Tmdb.Movie) (w : World) : World :=
  mk (currentPage w) (isLoading w) (hasMorePages w) (searchQuery w) l
     (grid w) (loading w) (observing w) (in_flight w) (sent w) (answered w).

Definition set_grid (g : option (list GridNode)) (w : World) : World :=
  mk (currentPage w) (isLoading w) (hasMorePages w) (searchQuery w)
     (searchResults w) g (loading w) (observing w) (in_flight w) (sent w)
     (answered w).

Definition set_loading (d : option Modal.Display) (w : World) : World :=
  mk (currentPage w) (isLoading w) (hasMorePages w) (searchQuery w)
     (searchResults w) (grid w) d (observing w) (in_flight w) (sent w)
     (answered w).

Definition set_observing (b : bool) (w : World) : World :=
  mk (currentPage w) (isLoading w) (hasMorePages w) (searchQuery w)
     (searchResults w) (grid w) (loading w) b (in_flight w) (sent w)
     (answered w).

(** [window.TMDbAPI.searchMovies(query, page)]: the call is made and
    its promise is pending. *)
Definition searchMovies (q : list N) (p : nat) : Js.M World unit :=
  Js.modify (fun w =>
    mk (currentPage w) (isLoading w) (hasMorePages w) (searchQuery w)
       (searchResults w) (grid w) (loading w) (observing w)
       (in_flight w ++ [Tmdb.mkRequest q p])
       (sent w ++ [Tmdb.mkRequest q p]) (answered w)).

(** The promise at index [i] settles with [o]. *)
Definition settled (i : nat) (r : Tmdb.Request) (o : Tmdb.Outcome)
  (w : World) : World :=
  mk (currentPage w) (isLoading w) (hasMorePages w) (searchQuery w)
     (searchResults w) (grid w) (loading w) (observing w)
     (delete i (in_flight w)) (sent w) (answered w ++ [(r, o)]).

(** [showLoading()] *)
Definition showLoading : Js.M World unit :=
  Js.modify (fun w =>
    match loading w with
    | Some _ => set_loading (Some Modal.DisplayBlock) w
    | None => w
    end).

(** [hideLoading()] *)
Definition hideLoading : Js.M World unit :=
  Js.modify (fun w =>
    match loading w with
    | Some _ =>
        if (1 <? currentPage w)%nat
        then set_loading (Some Modal.DisplayNone) w else w
    | None => w
    end).

(** [grid.appendChild(node)] after
    [grid = document.getElementById("search-results-grid")]: a
    [TypeError] when there is no such element. *)
Definition grid_append (nodes : list GridNode) : Js.M World unit :=
  fun w =>
    match grid w with
    | Some g => (Js.Normal tt, set_grid (Some (g ++ nodes)) w)
    | None => (Js.Throw, w)
    end.

(** [renderSearchResults(movies)] *)
Definition renderSearchResults (movies : list Tmdb.Movie) : Js.M World unit :=
  match movies with
  | [] => Js.ret tt
  | _ :: _ => grid_append (map Card movies)
  end.

(** [showNoResults()] *)
Definition showNoResults : Js.M World unit := grid_append [NoResults].

(** [showError(message)] *)
Definition showError (message : string) : Js.M World unit :=
  grid_append [ErrorMessage message].

(** [loadSearchResults()] up to its [await]. *)
Definition loadSearchResults : Js.M World unit :=
  fun w =>
    if isLoading w || negb (hasMorePages w) || bool_decide (searchQuery w = [])
    then Js.ret tt w
    else (Js.modify (set_isLoading true) ;;;
          showLoading ;;;
          searchMovies (searchQuery w) (currentPage w)) w.

(** [loadSearchResults()] from the point where the promise of
    [searchMovies] has settled. *)
Definition loadSearchResults_resume (o : Tmdb.Outcome) : Js.M World unit :=
  Js.try_catch_finally
    (match o with
     | Tmdb.Rejected => Js.throw
     | Tmdb.Fulfilled data =>
         match Tmdb.results data with
         | _ :: _ =>
             Js.modify (fun w =>
               set_searchResults (searchResults w ++ Tmdb.results data) w) ;;;
             renderSearchResults (Tmdb.results data) ;;;
             Js.modify (fun w => set_currentPage (S (currentPage w)) w) ;;;
             Js.modify (fun w =>
               set_hasMorePages
                 (currentPage w <=? Tmdb.total_pages data)%nat w)
         | [] =>
             Js.modify (set_hasMorePages false) ;;;
             p <- Js.gets currentPage ;;
             if (p =? 1)%nat then showNoResults else Js.ret tt
         end
     end)
    (showError "Failed to search movies. Please try again.")
    (Js.modify (set_isLoading false) ;;; hideLoading).

(** [createSearchContainer()]: a fresh container with an empty grid and
    a fresh loading element, observed by a fresh observer. *)
Definition createSearchContainer : Js.M World unit :=
  Js.modify (fun w =>
    set_observing true (set_loading (Some Modal.DisplayUnset)
                          (set_grid (Some []) w))).

(** [performSearch(query)] up to its [await].  ([toggleSearchMode] only
    switches a class of the header and is left out.) *)
Definition performSearch (q : list N) : Js.M World unit :=
  fun w =>
    if bool_decide (q = searchQuery w) then Js.ret tt w
    else (Js.modify (set_searchQuery q) ;;;
          Js.modify (set_currentPage 1) ;;;
          Js.modify (set_hasMorePages true) ;;;
          Js.modify (set_searchResults []) ;;;
          createSearchContainer ;;;
          loadSearchResults) w.

(** [clearSearch()] *)
Definition clearSearch : Js.M World unit :=
  Js.modify (set_searchQuery []) ;;;
  Js.modify (set_grid None) ;;;
  Js.modify (set_observing false).

(** The callback of the [IntersectionObserver], called with an entry
    that is intersecting; an observer that has been disconnected does
    not call.  When a connected observer calls is left to the
    environment. *)
Definition on_intersect : Js.M World unit :=
  fun w =>
    if observing w && negb (isLoading w) && hasMorePages w
       && negb (bool_decide (searchQuery w = []))
    then loadSearchResults w
    else Js.ret tt w.

Inductive Event :=
| PerformSearch (q : list N)          (* the debounce timer fires *)
| ClearSearch
| LoadSearchResults                   (* loadSearchResults() *)
| Intersect                           (* the sentinel comes into view *)
| Settle (i : nat) (o : Tmdb.Outcome) (* a pending promise settles *).

Definition step (ev : Event) (w : World) : World :=
  match ev with
  | PerformSearch q => Js.exec (performSearch q) w
  | ClearSearch => Js.exec clearSearch w
  | LoadSearchResults => Js.exec loadSearchResults w
  | Intersect => Js.exec on_intersect w
  | Settle i o =>
      match in_flight w !! i with
      | Some r => Js.exec (loadSearchResults_resume o) (settled i r o w)
      | None => w
      end
  end.

Definition run (evs : list Event) (w : World) : World :=
  foldl (fun w ev => step ev w) w evs.

(** A continuation trigger: the observer or a direct call. *)
Definition is_trigger (ev : Event) : bool :=
  match ev with
  | LoadSearchResults | Intersect => true
  | _ => false
  end.

Definition is_settle (ev : Event) : bool :=
  match ev with
  | Settle _ _ => true
  | _ => false
  end.

End SearchPage.

(** ** The browse feed controller ([class NowPlayingPage]) *)

Module NowPlayingPage.

(** The instance once [init] has created its container (the grid and
    the loading element are in the document from then on, and nothing
    removes them), before the first [loadMovies]. *)
Record World := mk {
  currentPage : nat;
  isLoading : bool;
  hasMorePages : bool;
  movies : list Tmdb.Movie;
  grid : list GridNode;             (* children of #movies-grid *)
  loading : Modal.Display;          (* loadingElement.style.display *)
  spinner : Modal.Display;          (* its .loading-spinner *)
  in_flight : list Tmdb.Request;    (* promises of getNowPlayingMovies *)
  sent : list Tmdb.Request;
  answered : list (Tmdb.Request * Tmdb.Outcome)
}.

Definition init : World :=
  mk 1 false true [] [] Modal.DisplayUnset Modal.DisplayUnset [] [] [].

Definition set_isLoading (b : bool) (w : World) : World :=
  mk (currentPage w) b (hasMorePages w) (movies w) (grid w) (loading w)
     (spinner w) (in_flight w) (sent w) (answered w).

Definition set_hasMorePages (b : bool) (w : World) : World :=
  mk (currentPage w) (isLoading w) b (movies w) (grid w) (loading w)
     (spinner w) (in_flight w) (sent w) (answered w).

Definition set_currentPage (p : nat) (w : World) : World :=
  mk p (isLoading w) (hasMorePages w) (movies w) (grid w) (loading w)
     (spinner w) (in_flight w) (sent w) (answered w).

Definition set_movies (l : list Tmdb.Movie) (w : World) : World :=
  mk (currentPage w) (isLoading w) (hasMorePages w) l (grid w) (loading w)
     (spinner w) (in_flight w) (sent w) (answered w).

Definition set_grid (g : list GridNode) (w : World) : World :=
  mk (currentPage w) (isLoading w) (hasMorePages w) (movies w) g (loading w)
     (spinner w) (in_flight w) (sent w) (answered w).

Definition set_display (l s : Modal.Display) (w : World) : World :=
  mk (currentPage w) (isLoading w) (hasMorePages w) (movies w) (grid w) l s
     (in_flight w) (sent w) (answered w).

(** [window.TMDbAPI.getNowPlayingMovies(page)] *)
Definition getNowPlayingMovies (p : nat) : Js.M World unit :=
  Js.modify (fun w =>
    mk (currentPage w) (isLoading w) (hasMorePages w) (movies w) (grid w)
       (loading w) (spinner w)
       (in_flight w ++ [Tmdb.mkRequest [] p])
       (sent w ++ [Tmdb.mkRequest [] p]) (answered w)).

Definition settled (i : nat) (r : Tmdb.Request) (o : Tmdb.Outcome)
  (w : World) : World :=
  mk (currentPage w) (isLoading w) (hasMorePages w) (movies w) (grid w)
     (loading w) (spinner w)
     (delete i (in_flight w)) (sent w) (answered w ++ [(r, o)]).

(** [showLoading()] *)
Definition showLoading : Js.M World unit :=
  Js.modify (set_display Modal.DisplayBlock Modal.DisplayBlock).

(** [hideLoading()] *)
Definition hideLoading : Js.M World unit :=
  Js.modify (fun w =>
    if negb (hasMorePages w)
    then set_display Modal.DisplayNone (spinner w) w
    else set_display (loading w) Modal.DisplayNone w).

(** [renderMovies(movies)] *)
Definition renderMovies (l : list Tmdb.Movie) : Js.M World unit :=
  Js.modify (fun w => set_grid (grid w ++ map Card l) w).

(** [showError(message)] *)
Definition showError (message : string) : Js.M World unit :=
  Js.modify (fun w => set_grid (grid w ++ [ErrorMessage message]) w).

(** [loadMovies()] up to its [await]. *)
Definition loadMovies : Js.M World unit :=
  fun w =>
    if isLoading w || negb (hasMorePages w) then Js.ret tt w
    else (Js.modify (set_isLoading true) ;;;
          showLoading ;;;
          getNowPlayingMovies (currentPage w)) w.

(** [loadMovies()] from the point where the promise has settled. *)
Definition loadMovies_resume (o : Tmdb.Outcome) : Js.M World unit :=
  Js.try_catch_finally
    (match o with
     | Tmdb.Rejected => Js.throw
     | Tmdb.Fulfilled data =>
         match Tmdb.results data with
         | _ :: _ =>
             Js.modify (fun w => set_movies (movies w ++ Tmdb.results data) w) ;;;
             renderMovies (Tmdb.results data) ;;;
             Js.modify (fun w => set_currentPage (S (currentPage w)) w) ;;;
             Js.modify (fun w =>
               set_hasMorePages
                 (currentPage w <=? Tmdb.total_pages data)%nat w)
         | [] => Js.modify (set_hasMorePages false)
         end
     end)
    (showError "Failed to load movies. Please try again.")
    (Js.modify (set_isLoading false) ;;; hideLoading).

(** The callback that [setupInfiniteScroll] gives to the observer,
    called with an entry that is intersecting. *)
Definition on_intersect : Js.M World unit :=
  fun w =>
    if negb (isLoading w) && hasMorePages w then loadMovies w
    else Js.ret tt w.

Inductive Event :=
| LoadMovies                          (* loadMovies() *)
| Intersect                           (* the sentinel comes into view *)
| Settle (i : nat) (o : Tmdb.Outcome) (* a pending promise settles *).

Definition step (ev : Event) (w : World) : World :=
  match ev with
  | LoadMovies => Js.exec loadMovies w
  | Intersect => Js.exec on_intersect w
  | Settle i o =>
      match in_flight w !! i with
      | Some r => Js.exec (loadMovies_resume o) (settled i r o w)
      | None => w
      end
  end.

Definition run (evs : list Event) (w : World) : World :=
  foldl (fun w ev => step ev w) w evs.

Definition is_trigger (ev : Event) : bool :=
  match ev with
  | LoadMovies | Intersect => true
  | _ => false
  end.

Definition is_settle (ev : Event) : bool :=
  match ev with
  | Settle _ _ => true
  | _ => false
  end.

End NowPlayingPage.

(** ** Cards *)

(** The texts of a card built by [createMovieCard(movie)] of
    [SearchPage] and [NowPlayingPage] that depend on the rating and on
    the overview. *)
Module FeedCard.
Section FeedCard.
Variable toString : float -> string.

Record t := mk {
  rating : string;        (* .movie-rating *)
  overview : list N       (* .movie-overview *)
}.

Definition createMovieCard (movie : Tmdb.Movie) : t :=
  mk (createMovieCard_rating toString (Tmdb.vote_average movie))
     (truncateText (Tmdb.overview movie) 120).

End FeedCard.
End FeedCard.

(** [class MovieCard] *)
Module MovieCard.
Section MovieCard.
Variable toString : float -> string.

(** [this.options], without the fields that only choose markup. *)
Record Options := mkOptions {
  showRating : bool;
  showOverview : bool;
  overviewLength : nat
}.

(** The defaults of the constructor. *)
Definition defaults : Options := mkOptions true true 120.

(** The texts that [generateHTML()] interpolates into its template
    for the title, the rating and the overview ([None]: the element is
    left out). *)
Record Interpolated := mkInterpolated {
  alt : list N;                    (* img alt *)
  rating : option string;          (* .movie-rating *)
  heading : list N;                (* .movie-title *)
  overview : option (list N)       (* .movie-overview *)
}.

Definition generateHTML (movie : Tmdb.Movie) (options : Options)
  : Interpolated :=
  let rating := formatRating toString (Tmdb.vote_average movie) in
  let overview := truncateOverview (Tmdb.overview movie)
                    (overviewLength options) in
  mkInterpolated
    (escapeHtml (Tmdb.title movie))
    (if showRating options then Some rating else None)
    (escapeHtml (Tmdb.title movie))
    (if showOverview options then Some (escapeHtml (JsVal overview))
     else None).

End MovieCard.
End MovieCard.

(** ** Invariants of the feed controllers *)

(** What holds of the search controller after any history: the flag
    [isLoading] is set exactly while one call is pending; while a query
    is active the search container is in the document and observed; a
    call is only ever made for a query that is not empty. *)
Definition search_consistent (w : SearchPage.World) : Prop :=
  length (SearchPage.in_flight w)
  = (if SearchPage.isLoading w then 1 else 0)
  /\ (SearchPage.searchQuery w <> [] ->
      is_Some (SearchPage.grid w) /\ SearchPage.observing w = true)
  /\ Forall (fun r => Tmdb.query r <> []) (SearchPage.in_flight w).

(** The same for the browse controller, whose pending call is always
    the one for its cursor. *)
Definition browse_consistent (w : NowPlayingPage.World) : Prop :=
  length (NowPlayingPage.in_flight w)
  = (if NowPlayingPage.isLoading w then 1 else 0)
  /\ Forall (fun r => Tmdb.number r = NowPlayingPage.currentPage w)
       (NowPlayingPage.in_flight w).


(** The gate at the top of [loadSearchResults]. *)
Definition search_gate (w : SearchPage.World) : bool :=
  SearchPage.isLoading w || negb (SearchPage.hasMorePages w)
  || bool_decide (SearchPage.searchQuery w = []).

(** ** Proof automation *)

(** Unfold the methods of a controller down to the record of the
    state. *)
Ltac unfold_search :=
  unfold SearchPage.step, Js.exec, SearchPage.performSearch,
    SearchPage.clearSearch, SearchPage.on_intersect,
    SearchPage.loadSearchResults, SearchPage.loadSearchResults_resume,
    SearchPage.createSearchContainer, SearchPage.showError,
    SearchPage.showNoResults, SearchPage.renderSearchResults,
    SearchPage.grid_append, SearchPage.showLoading, SearchPage.hideLoading,
    SearchPage.searchMovies, SearchPage.settled, Js.try_catch_finally,
    Js.bind, Js.modify, Js.ret, Js.gets, Js.throw,
    SearchPage.set_isLoading, SearchPage.set_hasMorePages,
    SearchPage.set_currentPage, SearchPage.set_searchQuery,
    SearchPage.set_searchResults, SearchPage.set_grid,
    SearchPage.set_loading, SearchPage.set_observing in *.

Ltac unfold_browse :=
  unfold NowPlayingPage.step, Js.exec, NowPlayingPage.on_intersect,
    NowPlayingPage.loadMovies, NowPlayingPage.loadMovies_resume,
    NowPlayingPage.showError, NowPlayingPage.renderMovies,
    NowPlayingPage.showLoading, NowPlayingPage.hideLoading,
    NowPlayingPage.getNowPlayingMovies, NowPlayingPage.settled,
    Js.try_catch_finally, Js.bind, Js.modify, Js.ret, Js.gets, Js.throw,
    NowPlayingPage.set_isLoading, NowPlayingPage.set_hasMorePages,
    NowPlayingPage.set_currentPage, NowPlayingPage.set_movies,
    NowPlayingPage.set_grid, NowPlayingPage.set_display in *.

(** Case analysis on every test that is left in the goal. *)
Ltac split_ifs :=
  repeat match goal with
         | |- context [if ?b then _ else _] => destruct b eqn:?; simpl
         end.

(** Project the fields of a state that is given by its record. *)
Ltac search_fields :=
  cbn [SearchPage.settled SearchPage.currentPage SearchPage.isLoading
       SearchPage.hasMorePages SearchPage.searchQuery
       SearchPage.searchResults SearchPage.grid SearchPage.loading
       SearchPage.observing SearchPage.in_flight SearchPage.sent
       SearchPage.answered] in *.

Ltac browse_fields :=
  cbn [NowPlayingPage.settled NowPlayingPage.currentPage
       NowPlayingPage.isLoading NowPlayingPage.hasMorePages
       NowPlayingPage.movies NowPlayingPage.grid NowPlayingPage.loading
       NowPlayingPage.spinner NowPlayingPage.in_flight NowPlayingPage.sent
       NowPlayingPage.answered] in *.

(** * More of the code *)

(** ** The life of a modal *)

Module ModalLife.
Section ModalLife.
Variable Content : Type.

(** What can happen to a modal: calls of its methods, and the
    callbacks that [open] and [close] leave behind.  The close button,
    a click on the overlay and the Escape key all call [close]. *)
Inductive Event :=
| Open (content : Content)
| Close
| CloseTimeout
| AnimationFrame
| SetContent (content : Content)
| Toggle (content : Content)
| Destroy.

Definition step (ev : Event) (m : Modal.t Content) : Modal.t Content :=
  match ev with
  | Open c => Modal.open c m
  | Close => Modal.close m
  | CloseTimeout => Modal.close_timeout m
  | AnimationFrame => Modal.animation_frame m
  | SetContent c => Modal.setContent c m
  | Toggle c => Modal.toggle Content c m
  | Destroy => Modal.destroy Content m
  end.

Definition run (evs : list Event) (m : Modal.t Content) : Modal.t Content :=
  foldl (fun m ev => step ev m) m evs.

Definition is_destroy (ev : Event) : bool :=
  match ev with
  | Destroy => true
  | _ => false
  end.

End ModalLife.

Arguments Open {Content}.
Arguments Close {Content}.
Arguments CloseTimeout {Content}.
Arguments AnimationFrame {Content}.
Arguments SetContent {Content}.
Arguments Toggle {Content}.
Arguments Destroy {Content}.
Arguments step {Content}.
Arguments run {Content}.
Arguments is_destroy {Content}.

End ModalLife.

(** ** The search box ([setupSearchInput], [handleSearchInput]) *)

(** A string that neither starts nor ends with white space: what
    [trim] returns. *)
Definition starts_with_white_space (s : list N) : bool :=
  match s with
  | c :: _ => JsString.is_white_space c
  | [] => false
  end.

Definition is_trimmed (s : list N) : bool :=
  negb (starts_with_white_space s) && negb (starts_with_white_space (rev s)).

Module SearchInput.

(** The search page with its input element and the timers that
    [handleSearchInput] starts.  A timer is its handle (a positive
    number, fresh for every [setTimeout]) and the query that its
    callback will commit. *)
Record World := mk {
  page : SearchPage.World;
  value : list N;                   (* this.searchInput.value *)
  searchTimeout : option nat;       (* this.searchTimeout *)
  timers : list (nat * list N);     (* the timers that have not fired *)
  next_handle : nat
}.

(** [new SearchPage()], once [setupSearchInput] has run. *)
Definition init : World := mk SearchPage.init [] None [] 1.

(** [clearTimeout(handle)] *)
Definition clearTimeout (handle : nat) (l : list (nat * list N))
  : list (nat * list N) :=
  filter (fun t => fst t <> handle) l.

(** [clearSearch()], with the input element that it empties. *)
Definition clearSearch (w : World) : World :=
  mk (Js.exec SearchPage.clearSearch (page w)) [] (searchTimeout w)
     (timers w) (next_handle w).

(** [handleSearchInput(event)], where [event.target.value] is
    [text]. *)
Definition handleSearchInput (text : list N) (w : World) : World :=
  let query := JsString.trim text in
  let pending :=
    match searchTimeout w with
    | Some handle => clearTimeout handle (timers w)
    | None => timers w
    end in
  match query with
  | [] =>
      clearSearch (mk (page w) text (searchTimeout w) pending (next_handle w))
  | _ :: _ =>
      mk (page w) text (Some (next_handle w))
         (pending ++ [(next_handle w, query)]) (S (next_handle w))
  end.

(** The callback of a timer: [this.performSearch(query)]. *)
Definition timeout (k : nat) (w : World) : World :=
  match timers w !! k with
  | Some (_, query) =>
      mk (SearchPage.step (SearchPage.PerformSearch query) (page w))
         (value w) (searchTimeout w) (delete k (timers w)) (next_handle w)
  | None => w
  end.

Definition on_page (ev : SearchPage.Event) (w : World) : World :=
  mk (SearchPage.step ev (page w)) (value w) (searchTimeout w) (timers w)
     (next_handle w).

Inductive Event :=
| Input (text : list N)               (* the user edits the box *)
| Timeout (k : nat)                   (* a pending timer fires *)
| Escape                              (* Escape in the box *)
| ClearClick                          (* the clear button *)
| Intersect                           (* the sentinel comes into view *)
| Settle (i : nat) (o : Tmdb.Outcome) (* a pending promise settles *).

Definition step (ev : Event) (w : World) : World :=
  match ev with
  | Input text => handleSearchInput text w
  | Timeout k => timeout k w
  | Escape => clearSearch w
  | ClearClick => clearSearch w
  | Intersect => on_page SearchPage.Intersect w
  | Settle i o => on_page (SearchPage.Settle i o) w
  end.

Definition run (evs : list Event) (w : World) : World :=
  foldl (fun w ev => step ev w) w evs.

(** What holds after any history: at most one timer is pending, it is
    the one that [this.searchTimeout] names, and its query is trimmed
    and not empty; the active query and the query of every call made
    are trimmed. *)
Definition consistent (w : World) : Prop :=
  (timers w = []
   \/ exists handle query,
       timers w = [(handle, query)] /\ searchTimeout w = Some handle
       /\ query <> [] /\ is_trimmed query = true)
  /\ is_trimmed (SearchPage.searchQuery (page w)) = true
  /\ Forall (fun r => Tmdb.query r <> [] /\ is_trimmed (Tmdb.query r) = true)
       (SearchPage.sent (page w)).

End SearchInput.

(** ** Genres ([loadGenres], the genres of a card) *)

Module Genres.

(** An entry of the list that [getMovieGenres] returns. *)
Record Genre := mkGenre {
  id : N;
  name : list N
}.

(** [genreData.genres.reduce((acc, genre) => { acc[genre.id] =
    genre.name; return acc; }, {})] *)
Definition table_of (l : list Genre) : gmap N (list N) :=
  foldl (fun acc genre => <[id genre := name genre]> acc) ∅ l.

(** [loadGenres()], from the point where the promise has settled:
    [this.genres] is replaced when the list arrives and is left as it is
    when the call fails. *)
Definition loadGenres (answer : option (list Genre)) (genres : gmap N (list N))
  : gmap N (list N) :=
  match answer with
  | Some l => table_of l
  | None => genres
  end.

(** [names.join(", ")] *)
Fixpoint join (sep : list N) (l : list (list N)) : list N :=
  match l with
  | [] => []
  | [x] => x
  | x :: l' => x ++ sep ++ join sep l'
  end.

(** [ids.map((id) => this.genres[id]).filter(Boolean)]: the names that
    are there and not empty. *)
Definition names (genres : gmap N (list N)) (ids : list N) : list (list N) :=
  filter (fun n => n <> []) (omap (fun id => genres !! id) ids).

(** [x || "Unknown"] for a string [x]. *)
Definition or_unknown (x : list N) : list N :=
  match x with
  | [] => JsString.lit "Unknown"
  | _ :: _ => x
  end.

(** The genres of a card of [SearchPage] and [NowPlayingPage]:
    [movie.genre_ids?.map(...).filter(Boolean).join(", ") || "Unknown"]. *)
Definition createMovieCard_genres (genres : gmap N (list N))
  (genre_ids : jsopt (list N)) : list N :=
  match genre_ids with
  | JsVal ids => or_unknown (join (JsString.lit ", ") (names genres ids))
  | _ => JsString.lit "Unknown"
  end.

(** [MovieCard.mapGenres()] *)
Definition mapGenres (genres : gmap N (list N)) (genre_ids : jsopt (list N))
  : list N :=
  match genre_ids with
  | JsVal (id :: ids) =>
      or_unknown (join (JsString.lit ", ") (names genres (id :: ids)))
  | _ => JsString.lit "Unknown"
  end.

End Genres.

(** ** More on escaping, cards and grids *)

(** One of the five characters that [escapeHtml] replaces. *)
Definition html_special (c : N) : bool :=
  (c =? Html.amp)%N || Html.markup c.

(** A number that is [0] or [-0]. *)
Definition is_zero (x : float) : bool :=
  match Prim2SF x with
  | S754_zero _ => true
  | _ => false
  end.

Definition is_card (node : GridNode) : bool :=
  match node with
  | Card _ => true
  | _ => false
  end.

(** An answer that is a page with at least one item. *)
Definition has_items (a : Tmdb.Request * Tmdb.Outcome) : bool :=
  match snd a with
  | Tmdb.Fulfilled data =>
      match Tmdb.results data with
      | [] => false
      | _ :: _ => true
      end
  | Tmdb.Rejected => false
  end.

(** The number of pages that have arrived with at least one item. *)
Definition pages_with_items (log : list (Tmdb.Request * Tmdb.Outcome)) : nat :=
  length (List.filter has_items log).

(** A list of page numbers that starts at [1] and goes on by steps of
    [0] or [1]. *)
Fixpoint steps_by_one (from : nat) (l : list nat) : bool :=
  match l with
  | [] => true
  | p :: l' => ((p =? from) || (p =? S from))%nat && steps_by_one p l'
  end.

Definition in_order (l : list nat) : bool :=
  match l with
  | [] => true
  | p :: l' => (p =? 1)%nat && steps_by_one p l'
  end.

Definition is_error (node : GridNode) : bool :=
  match node with
  | ErrorMessage _ => true
  | _ => false
  end.

Definition is_rejected (a : Tmdb.Request * Tmdb.Outcome) : bool :=
  match snd a with
  | Tmdb.Rejected => true
  | Tmdb.Fulfilled _ => false
  end.

(** The browse feed shows what has arrived: the calls are answered in
    the order in which they were made, the list holds the items of the
    pages that arrived, the grid one card for each of them and one
    message for each call that failed, and the cursor is one more than
    the number of pages that arrived with items. *)
Definition browse_feed (w : NowPlayingPage.World) : Prop :=
  map fst (NowPlayingPage.answered w) ++ NowPlayingPage.in_flight w
  = NowPlayingPage.sent w
  /\ Forall (fun r => Tmdb.query r = []) (NowPlayingPage.sent w)
  /\ NowPlayingPage.movies w = Tmdb.items_for [] (NowPlayingPage.answered w)
  /\ List.filter is_card (NowPlayingPage.grid w)
     = map Card (NowPlayingPage.movies w)
  /\ length (List.filter is_error (NowPlayingPage.grid w))
     = length (List.filter is_rejected (NowPlayingPage.answered w))
  /\ NowPlayingPage.currentPage w
     = S (pages_with_items (NowPlayingPage.answered w))
  /\ in_order (map Tmdb.number (NowPlayingPage.sent w)
                 ++ [NowPlayingPage.currentPage w]) = true.


(** ** Debouncing and throttling ([EventUtils]) *)

(** [clearTimeout(handle)] on the timers that are pending; [handle] is
    [undefined] before the first [setTimeout]. *)
Definition clearTimeout {A : Type} (handle : option nat)
  (l : list (nat * A)) : list (nat * A) :=
  match handle with
  | Some h => filter (fun t => fst t <> h) l
  | None => l
  end.

(** The function that [debounce(func, delay)] returns: its variable
    [timeoutId], the timers that it has set and that are pending (handle,
    time from which the timer may fire, arguments), the clock, and a log
    of its own calls and of the calls of [func] (time, arguments). *)
Module Debounce.
Section Debounce.
Variable Args : Type.
Variable delay : nat.

Record Debounced := mkDebounced {
  timeoutId : option nat;
  timers : list (nat * (nat * Args));
  next_handle : nat;
  now : nat;
  calls : list (nat * Args);
  applied : list (nat * Args)
}.

(** [debounce(func, delay)] *)
Definition debounce : Debounced := mkDebounced None [] 1 0 [] [].

(** A call of the returned function. *)
Definition call (args : Args) (d : Debounced) : Debounced :=
  mkDebounced (Some (next_handle d))
    (clearTimeout (timeoutId d) (timers d)
       ++ [(next_handle d, (now d + delay, args))])
    (S (next_handle d)) (now d)
    (calls d ++ [(now d, args)]) (applied d).

(** The timer at index [k] fires: not before its delay has passed. *)
Definition timeout (k : nat) (d : Debounced) : Debounced :=
  match timers d !! k with
  | Some (_, (due, args)) =>
      if (due <=? now d)%nat
      then mkDebounced (timeoutId d) (delete k (timers d)) (next_handle d)
             (now d) (calls d) (applied d ++ [(now d, args)])
      else d
  | None => d
  end.

Definition advance (dt : nat) (d : Debounced) : Debounced :=
  mkDebounced (timeoutId d) (timers d) (next_handle d) (now d + dt)
    (calls d) (applied d).

Inductive Event :=
| Call (args : Args)
| Timeout (k : nat)
| Advance (dt : nat).

Definition step (ev : Event) (d : Debounced) : Debounced :=
  match ev with
  | Call args => call args d
  | Timeout k => timeout k d
  | Advance dt => advance dt d
  end.

Definition run (evs : list Event) (d : Debounced) : Debounced :=
  foldl (fun d ev => step ev d) d evs.

(** [func] ran at [t] with the arguments of a call made at least
    [delay] before, after which no call was made until [t]. *)
Definition after_quiet (log : list (nat * Args)) (a : nat * Args) : Prop :=
  exists before after t0,
    log = before ++ (t0, snd a) :: after
    /\ t0 + delay <= fst a
    /\ Forall (fun c => fst a <= fst c) after.

Definition consistent (d : Debounced) : Prop :=
  Forall (fun a => fst a <= now d) (applied d)
  /\ (timers d = []
      \/ exists h t0 args before,
          timers d = [(h, (t0 + delay, args))]
          /\ timeoutId d = Some h
          /\ calls d = before ++ [(t0, args)])
  /\ Forall (after_quiet (calls d)) (applied d)
  /\ length (applied d) + length (timers d) <= length (calls d).

End Debounce.

Arguments mkDebounced {Args}.
Arguments timeoutId {Args}.
Arguments timers {Args}.
Arguments next_handle {Args}.
Arguments now {Args}.
Arguments calls {Args}.
Arguments applied {Args}.
Arguments Call {Args}.
Arguments Timeout {Args}.
Arguments Advance {Args}.
End Debounce.

(** The function that [throttle(func, limit)] returns: its variable
    [inThrottle], the timers that will clear it (the time from which
    each may fire), the clock and the two logs. *)
Module Throttle.
Section Throttle.
Variable Args : Type.
Variable limit : nat.

Record Throttled := mkThrottled {
  inThrottle : bool;
  timers : list nat;
  now : nat;
  calls : list (nat * Args);
  applied : list (nat * Args)
}.


Definition call (args : Args) (d : Throttled) : Throttled :=
  if inThrottle d
  then mkThrottled true (timers d) (now d) (calls d ++ [(now d, args)])
         (applied d)
  else mkThrottled true (timers d ++ [now d + limit]) (now d)
         (calls d ++ [(now d, args)]) (applied d ++ [(now d, args)]).

Definition timeout (k : nat) (d : Throttled) : Throttled :=
  match timers d !! k with
  | Some due =>
      if (due <=? now d)%nat
      then mkThrottled false (delete k (timers d)) (now d) (calls d)
             (applied d)
      else d
  | None => d
  end.

Definition advance (dt : nat) (d : Throttled) : Throttled :=
  mkThrottled (inThrottle d) (timers d) (now d + dt) (calls d) (applied d).

Inductive Event :=
| Call (args : Args)
| Timeout (k : nat)
| Advance (dt : nat).

Definition step (ev : Event) (d : Throttled) : Throttled :=
  match ev with
  | Call args => call args d
  | Timeout k => timeout k d
  | Advance dt => advance dt d
  end.

Definition run (evs : list Event) (d : Throttled) : Throttled :=
  foldl (fun d ev => step ev d) d evs.

(** Times in increasing order, each at least [limit] after the ones
    before it. *)
Fixpoint spaced (l : list nat) : bool :=
  match l with
  | [] => true
  | t :: l' => forallb (fun u => (t + limit <=? u)%nat) l' && spaced l'
  end.

Definition consistent (d : Throttled) : Prop :=
  spaced (map fst (applied d)) = true
  /\ (if inThrottle d
      then exists t args before,
          timers d = [t + limit] /\ applied d = before ++ [(t, args)]
          /\ t <= now d
      else timers d = []
           /\ Forall (fun a => fst a + limit <= now d) (applied d))
  /\ sublist (applied d) (calls d)
  /\ head (applied d) = head (calls d).

End Throttle.

Arguments mkThrottled {Args}.
Arguments inThrottle {Args}.
Arguments timers {Args}.
Arguments now {Args}.
Arguments calls {Args}.
Arguments applied {Args}.
Arguments Call {Args}.
Arguments Timeout {Args}.
Arguments Advance {Args}.
End Throttle.

(** ** The loading spinner ([class Loader]) *)

Module Loader.

(** [this.options], without the two class names, which only choose
    markup. *)
Record Options := mkOptions {
  message : list N;
  showMessage : bool;
  autoHide : bool
}.

(** An object of options as a caller gives it: the fields that it
    has. *)
Record Given := mkGiven {
  given_message : option (list N);
  given_showMessage : option bool;
  given_autoHide : option bool
}.

Definition defaults : Options := mkOptions (JsString.lit "Loading...") true true.

(** [{ ...options, ...given }] *)
Definition merge (options : Options) (given : Given) : Options :=
  mkOptions (default (message options) (given_message given))
            (default (showMessage options) (given_showMessage given))
            (default (autoHide options) (given_autoHide given)).

(** The container element: its [style.display], whether it has the
    class [hidden], whether it has a parent, and the text of its
    [.loading-message] when it has one. *)
Record Container := mkContainer {
  display : Modal.Display;
  hidden : bool;
  attached : bool;
  text : option (list N)
}.

Record t := mk {
  container : option Container;
  isLoading : bool;
  options : Options
}.

(** [createContainer()] *)
Definition createContainer (o : Options) : Container :=
  mkContainer Modal.DisplayUnset false false
    (if showMessage o then Some (message o) else None).

(** [findOrCreateContainer()]; [existing] is what
    [document.getElementById(this.containerId)] finds, which is in the
    document. *)
Definition findOrCreateContainer (existing : option Container) (o : Options)
  : Container :=
  match existing with
  | Some c => mkContainer (display c) (hidden c) true (text c)
  | None =>
      let c := createContainer o in
      mkContainer (display c) (hidden c) true (text c)
  end.

(** [hide()] *)
Definition hide (l : t) : t :=
  match container l with
  | None => l
  | Some c =>
      mk (Some (mkContainer Modal.DisplayNone true (attached c) (text c)))
         false (options l)
  end.

(** A string that is truthy: there and not empty. *)
Definition truthy (s : jsopt (list N)) : bool :=
  match s with
  | JsVal (_ :: _) => true
  | _ => false
  end.

Definition or_else (s : jsopt (list N)) (d : list N) : list N :=
  match s with
  | JsVal (c :: s') => c :: s'
  | _ => d
  end.

(** [setMessage(message)] *)
Definition setMessage (msg : jsopt (list N)) (l : t) : t :=
  match container l with
  | None => l
  | Some c =>
      if negb (showMessage (options l)) then l
      else
        match text c with
        | Some _ =>
            mk (Some (mkContainer (display c) (hidden c) (attached c)
                        (Some (or_else msg (message (options l))))))
               (isLoading l) (options l)
        | None => l
        end
  end.

(** [show(message)] *)
Definition show (msg : jsopt (list N)) (l : t) : t :=
  match container l with
  | None => l
  | Some _ =>
      let l1 :=
        if truthy msg && showMessage (options l) then setMessage msg l
        else l in
      match container l1 with
      | Some c =>
          mk (Some (mkContainer Modal.DisplayBlock false true (text c)))
             true (options l1)
      | None => l1
      end
  end.

(** [toggle(message)] *)
Definition toggle (msg : jsopt (list N)) (l : t) : t :=
  if isLoading l then hide l else show msg l.

(** [isVisible()]: the value of the chain of [&&], which is [null]
    when the flag is set and there is no container. *)
Definition isVisible (l : t) : jsopt bool :=
  if isLoading l then
    match container l with
    | None => JsNull
    | Some c =>
        match display c with
        | Modal.DisplayNone => JsVal false
        | _ => JsVal (negb (hidden c))
        end
    end
  else JsVal false.

(** [updateOptions(newOptions)] *)
Definition updateOptions (given : Given) (l : t) : t :=
  let l1 := mk (container l) (isLoading l) (merge (options l) given) in
  match container l1, given_message given with
  | Some _, Some (c :: s) => setMessage (JsVal (c :: s)) l1
  | _, _ => l1
  end.

(** [destroy()] *)
Definition destroy (l : t) : t := mk None false (options l).

(** [init()] *)
Definition init (existing : option Container) (l : t) : t :=
  let l1 := mk (Some (findOrCreateContainer existing (options l)))
               (isLoading l) (options l) in
  if autoHide (options l1) then hide l1 else l1.

(** [new Loader(containerId, options)] *)
Definition create (existing : option Container) (given : Given) : t :=
  init existing (mk None false (merge defaults given)).

(** A loader and the number of calls of [showDuring] whose promise has
    not settled. *)
Record World := mkWorld {
  loader : t;
  waiting : nat
}.

Inductive Event :=
| Show (msg : jsopt (list N))
| Hide
| Toggle (msg : jsopt (list N))
| SetMessage (msg : jsopt (list N))
| UpdateOptions (given : Given)
| Destroy
| ShowDuring (msg : jsopt (list N))   (* showDuring(promise, message) *)
| Settle                              (* one of the promises settles *).

Definition step (ev : Event) (w : World) : World :=
  match ev with
  | Show msg => mkWorld (show msg (loader w)) (waiting w)
  | Hide => mkWorld (hide (loader w)) (waiting w)
  | Toggle msg => mkWorld (toggle msg (loader w)) (waiting w)
  | SetMessage msg => mkWorld (setMessage msg (loader w)) (waiting w)
  | UpdateOptions given => mkWorld (updateOptions given (loader w)) (waiting w)
  | Destroy => mkWorld (destroy (loader w)) (waiting w)
  | ShowDuring msg => mkWorld (show msg (loader w)) (S (waiting w))
  | Settle =>
      match waiting w with
      | S n => mkWorld (hide (loader w)) n
      | O => w
      end
  end.

Definition run (evs : list Event) (w : World) : World :=
  foldl (fun w ev => step ev w) w evs.

Definition is_destroy (ev : Event) : bool :=
  match ev with
  | Destroy => true
  | _ => false
  end.

(** The flag is set only while the container is shown. *)
Definition shown (l : t) : Prop :=
  isLoading l = true ->
  exists c, container l = Some c
            /\ display c = Modal.DisplayBlock
            /\ hidden c = false
            /\ attached c = true.

(** The flag is clear only while the container is hidden. *)
Definition concealed (l : t) : Prop :=
  isLoading l = false ->
  forall c, container l = Some c ->
            display c = Modal.DisplayNone /\ hidden c = true.

End Loader.

(** ** The loaders of the page ([class LoaderFactory], [LoaderUtils]) *)

Module LoaderFactory.

(** [this.loaders]: a [Map] from ids to loaders, in the order in which
    the ids were inserted. *)
Definition t := list (list N * Loader.t).

(** [this.loaders.get(id)] *)
Fixpoint get (id : list N) (f : t) : option Loader.t :=
  match f with
  | [] => None
  | (k, l) :: f' => if decide (k = id) then Some l else get id f'
  end.

(** [this.loaders.set(id, loader)] *)
Fixpoint set (id : list N) (l : Loader.t) (f : t) : t :=
  match f with
  | [] => [(id, l)]
  | (k, l0) :: f' =>
      if decide (k = id) then (k, l) :: f' else (k, l0) :: set id l f'
  end.

(** A method called on the loader that [get(id)] returns: the loader
    in the map is the one that changes. *)
Definition update (id : list N) (g : Loader.t -> Loader.t) (f : t) : t :=
  map (fun e => if decide (fst e = id) then (fst e, g (snd e)) else e) f.

(** [create(id, options)]; [existing] is the element with this id that
    the document has when the loader is built. *)
Definition create (id : list N) (given : Loader.Given)
  (existing : option Loader.Container) (f : t) : t :=
  match get id f with
  | Some _ => f
  | None => set id (Loader.create existing given) f
  end.

(** [remove(id)] *)
Definition remove (id : list N) (f : t) : t :=
  match get id f with
  | Some _ => filter (fun e => fst e <> id) f
  | None => f
  end.

(** [hideAll()] *)
Definition hideAll (f : t) : t :=
  map (fun e => (fst e, Loader.hide (snd e))) f.

(** [destroyAll()] *)
Definition destroyAll (f : t) : t := [].

Definition is_true (v : jsopt bool) : bool :=
  match v with
  | JsVal true => true
  | _ => false
  end.

(** [getActive()] *)
Definition getActive (f : t) : list Loader.t :=
  List.filter (fun l => is_true (Loader.isVisible l)) (map snd f).

(** [LoaderUtils.showApiLoader(message)] and its two siblings, for
    their id and the default value of [message]: [create] and then
    [show()] on what it returns. *)
Definition showLoader (id dflt : list N) (message : option (list N))
  (existing : option Loader.Container) (f : t) : t :=
  update id (Loader.show JsUndefined)
    (create id (Loader.mkGiven (Some (default dflt message)) None None)
       existing f).

Definition showApiLoader :=
  showLoader (JsString.lit "api-loader") (JsString.lit "Loading...").

Definition showSearchLoader :=
  showLoader (JsString.lit "search-loader") (JsString.lit "Searching...").

Definition showDetailsLoader :=
  showLoader (JsString.lit "details-loader")
    (JsString.lit "Loading movie details...").

End LoaderFactory.

(** ** The calls of the detail aggregator *)

(** The movies whose cards were clicked, in the order of the clicks. *)
Definition clicked {Json : Type} (evs : list (Details.Event Json)) : list N :=
  omap (fun ev => match ev with
                  | Details.CardClick id => Some id
                  | _ => None
                  end) evs.

(** The four calls of one [openMovieDetails(movie)]. *)
Definition calls_for (id : N) : list (Details.Endpoint * N) :=
  [(Details.MovieDetails, id); (Details.MovieVideos, id);
   (Details.MovieReviews, id); (Details.SimilarMovies, id)].

(** An invocation that is waiting for at least one of its four
    answers. *)
Definition incomplete {Json : Type} (c : Details.Invocation Json) : Prop :=
  Details.details Json c = None \/ Details.videos Json c = None
  \/ Details.reviews Json c = None \/ Details.similar Json c = None.

(** * Properties *)

(** ** Truncation *)

Lemma trimStart_split (s : list N) :
  exists l, s = l ++ JsString.trimStart s
            /\ Forall (fun c => JsString.is_white_space c = true) l.
Proof.
  induction s as [|c s [l [Hs Hl]]]; simpl.
  - exists []. split; [reflexivity | constructor].
  - destruct (JsString.is_white_space c) eqn:Hc.
    + exists (c :: l). split.
      * simpl. f_equal. exact Hs.
      * constructor; assumption.
    + exists []. split; [reflexivity | constructor].
Qed.

Lemma trimEnd_split (s : list N) :
  exists r, s = JsString.trimEnd s ++ r
            /\ Forall (fun c => JsString.is_white_space c = true) r.
Proof.
  unfold JsString.trimEnd.
  destruct (trimStart_split (rev s)) as [l [Hs Hl]].
  exists (rev l). split.
  - rewrite <- rev_app_distr, <- Hs, rev_involutive. reflexivity.
  - apply Forall_rev. exact Hl.
Qed.

Lemma trim_split (s : list N) :
  exists l r, s = l ++ JsString.trim s ++ r
              /\ Forall (fun c => JsString.is_white_space c = true) l
              /\ Forall (fun c => JsString.is_white_space c = true) r.
Proof.
  unfold JsString.trim.
  destruct (trimStart_split s) as [l [Hs Hl]].
  destruct (trimEnd_split (JsString.trimStart s)) as [r [Hs' Hr]].
  exists l, r. split; [|split]; try assumption.
  rewrite <- Hs'. exact Hs.
Qed.

Lemma trimStart_head (s : list N) :
  match JsString.trimStart s with
  | [] => True
  | c :: _ => JsString.is_white_space c = false
  end.
Proof.
  induction s as [|c s IH]; simpl; [exact I|].
  destruct (JsString.is_white_space c) eqn:Hc; [exact IH | exact Hc].
Qed.

Lemma trimStart_snoc (l : list N) (c : N) :
  JsString.is_white_space c = false ->
  JsString.trimStart (l ++ [c]) = JsString.trimStart l ++ [c].
Proof.
  intros Hc. induction l as [|d l IH]; simpl.
  - rewrite Hc. reflexivity.
  - destruct (JsString.is_white_space d); [exact IH | reflexivity].
Qed.

Lemma trim_ends (s : list N) :
  match JsString.trim s with
  | [] => True
  | c :: _ => JsString.is_white_space c = false
  end
  /\ match rev (JsString.trim s) with
     | [] => True
     | c :: _ => JsString.is_white_space c = false
     end.
Proof.
  unfold JsString.trim, JsString.trimEnd. split.
  - pose proof (trimStart_head s) as Hh.
    destruct (JsString.trimStart s) as [|c t]; [exact I|].
    simpl rev. rewrite (trimStart_snoc _ _ Hh), rev_app_distr. simpl. exact Hh.
  - rewrite rev_involutive. apply trimStart_head.
Qed.

(** C8, amended.  Both truncations return a string of at most [n]
    UTF-16 code units unchanged.  A longer one is cut to its first [n]
    code units, from which nothing but white space at the two ends is
    dropped, and ["..."] is appended; in [MovieCard.truncateOverview]
    the cut is trimmed at both ends.  Absent text gives the empty
    string, and 121 letters cut at 120 give 123 code units that end in
    the ellipsis. *)
Theorem truncate_cuts_code_units (s : list N) (n : nat) :
  (length s <= n ->
   truncateText (JsVal s) n = s /\ truncateOverview (JsVal s) n = s)
  /\ (n < length s ->
      (exists l cut r,
          take n s = l ++ cut ++ r
          /\ Forall (fun c => JsString.is_white_space c = true) l
          /\ Forall (fun c => JsString.is_white_space c = true) r
          /\ truncateText (JsVal s) n = cut ++ JsString.lit "...")
      /\ (exists l r,
             take n s = l ++ JsString.trim (take n s) ++ r
             /\ Forall (fun c => JsString.is_white_space c = true) l
             /\ Forall (fun c => JsString.is_white_space c = true) r
             /\ truncateOverview (JsVal s) n
                = JsString.trim (take n s) ++ JsString.lit "...")
      /\ match JsString.trim (take n s) with
         | [] => True
         | c :: _ => JsString.is_white_space c = false
         end
      /\ match rev (JsString.trim (take n s)) with
         | [] => True
         | c :: _ => JsString.is_white_space c = false
         end
      /\ length (truncateText (JsVal s) n) = n + 3
      /\ length (truncateOverview (JsVal s) n) <= n + 3)
  /\ truncateText JsNull n = [] /\ truncateText JsUndefined n = []
  /\ truncateOverview JsNull n = [] /\ truncateOverview JsUndefined n = []
  /\ truncateText (JsVal (replicate 120 65%N)) 120 = replicate 120 65%N
  /\ truncateOverview (JsVal (replicate 120 65%N)) 120 = replicate 120 65%N
  /\ truncateText (JsVal (replicate 121 65%N)) 120
     = replicate 120 65%N ++ JsString.lit "..."
  /\ truncateOverview (JsVal (replicate 121 65%N)) 120
     = replicate 120 65%N ++ JsString.lit "..."
  /\ length (truncateText (JsVal (replicate 121 65%N)) 120) = 123
  /\ length (truncateOverview (JsVal (replicate 121 65%N)) 120) = 123.
Proof.
  split; [|split].
  - intros Hle. destruct s as [|c s]; [split; reflexivity|].
    unfold truncateText, truncateOverview.
    destruct (Nat.ltb_spec n (length (c :: s))); [lia|].
    destruct (Nat.leb_spec (length (c :: s)) n); [|lia].
    split; reflexivity.
  - intros Hlt. destruct s as [|c s]; [simpl in Hlt; lia|].
    unfold truncateText, truncateOverview, JsString.substring0,
      JsString.ellipsis.
    destruct (Nat.ltb_spec n (length (c :: s))); [|lia].
    destruct (Nat.leb_spec (length (c :: s)) n); [lia|].
    destruct (trim_split (take n (c :: s))) as [l [r [Hs [Hl Hr]]]].
    destruct (trim_ends (take n (c :: s))) as [Hh Ht].
    repeat split.
    + exists [], (take n (c :: s)), []. rewrite app_nil_r.
      repeat split; constructor.
    + exists l, r. repeat split; assumption.
    + exact Hh.
    + exact Ht.
    + rewrite length_app, length_take. simpl length in *. lia.
    + rewrite length_app.
      assert (length (JsString.trim (take n (c :: s))) <= n); [|simpl; lia].
      apply (f_equal length) in Hs.
      rewrite !length_app, length_take in Hs. lia.
  - repeat split; vm_compute; reflexivity.
Qed.

Lemma truncate_cuts_code_units_witness :
  truncateText (JsVal (JsString.lit "Dune")) 120 = JsString.lit "Dune"
  /\ length (truncateText (JsVal (JsString.lit "A long overview")) 6) = 6 + 3.
Proof.
  split.
  - apply (truncate_cuts_code_units (JsString.lit "Dune") 120).
    vm_compute. lia.
  - apply (truncate_cuts_code_units (JsString.lit "A long overview") 6).
    vm_compute. lia.
Defined.

(** C8 as stated fails.  A face emoji (the surrogate pair D83D DE00)
    after 119 letters is cut between its two code units, by both
    truncations at the limit of the cards; [truncateText] keeps white
    space before the ellipsis; [truncateOverview] drops white space at
    the start as well. *)
Lemma truncate_splits_surrogate_pair :
  let s := (replicate 119 65 ++ [55357; 56832])%N in
  JsString.well_formed s = true
  /\ truncateText (JsVal s) 120
     = (replicate 119 65 ++ [55357])%N ++ JsString.lit "..."
  /\ JsString.well_formed (truncateText (JsVal s) 120) = false
  /\ truncateOverview (JsVal s) 120
     = (replicate 119 65 ++ [55357])%N ++ JsString.lit "..."
  /\ JsString.well_formed (truncateOverview (JsVal s) 120) = false
  /\ truncateText (JsVal (JsString.lit "ab   cd")) 4 = JsString.lit "ab  ..."
  /\ truncateOverview (JsVal (JsString.lit "  abcd")) 4 = JsString.lit "ab...".
Proof. repeat split; vm_compute; reflexivity. Qed.

(** ** HTML escaping *)

Lemma flat_map_flat_map {A B C} (f : A -> list B) (g : B -> list C)
  (l : list A) :
  flat_map g (flat_map f l) = flat_map (fun x => flat_map g (f x)) l.
Proof.
  induction l as [|x l IH]; simpl; [reflexivity|].
  rewrite flat_map_app, IH. reflexivity.
Qed.

(** The five passes, run on one character, give its entity: a later
    pass never touches what an earlier one wrote, because [&] is
    replaced first and no entity contains one of the other four
    characters. *)
Lemma passes_on_one_character (u : N) :
  JsString.replace_all Html.apos (JsString.lit "&#039;")
    (JsString.replace_all Html.quot (JsString.lit "&quot;")
       (JsString.replace_all Html.gt (JsString.lit "&gt;")
          (JsString.replace_all Html.lt (JsString.lit "&lt;")
             (JsString.replace_all Html.amp (JsString.lit "&amp;") [u]))))
  = Html.entity u.
Proof.
  unfold Html.entity, JsString.replace_all. cbn [flat_map].
  destruct (N.eqb_spec u Html.amp) as [->|Hamp]; [vm_compute; reflexivity|].
  cbn [flat_map app].
  destruct (N.eqb_spec u Html.lt) as [->|Hlt]; [vm_compute; reflexivity|].
  cbn [flat_map app].
  destruct (N.eqb_spec u Html.gt) as [->|Hgt]; [vm_compute; reflexivity|].
  cbn [flat_map app].
  destruct (N.eqb_spec u Html.quot) as [->|Hquot]; [vm_compute; reflexivity|].
  cbn [flat_map app].
  destruct (N.eqb_spec u Html.apos) as [->|Hapos]; [vm_compute; reflexivity|].
  reflexivity.
Qed.

Lemma escapeHtml_flat_map (s : list N) :
  escapeHtml (JsVal s) = flat_map Html.entity s.
Proof.
  destruct s as [|c s]; [reflexivity|].
  unfold escapeHtml. generalize (c :: s). clear c s. intros s.
  induction s as [|u s IH]; [reflexivity|].
  change (flat_map Html.entity (u :: s))
    with (Html.entity u ++ flat_map Html.entity s).
  rewrite <- IH, <- (passes_on_one_character u).
  unfold JsString.replace_all.
  rewrite <- !flat_map_app. reflexivity.
Qed.

Lemma entity_no_markup (u : N) :
  Forall (fun c => Html.markup c = false) (Html.entity u).
Proof.
  unfold Html.entity.
  destruct (N.eqb_spec u Html.amp); [repeat constructor|].
  destruct (N.eqb_spec u Html.lt) as [|Hlt]; [repeat constructor|].
  destruct (N.eqb_spec u Html.gt) as [|Hgt]; [repeat constructor|].
  destruct (N.eqb_spec u Html.quot) as [|Hquot]; [repeat constructor|].
  destruct (N.eqb_spec u Html.apos) as [|Hapos]; [repeat constructor|].
  constructor; [|constructor]. unfold Html.markup.
  apply N.eqb_neq in Hlt, Hgt, Hquot, Hapos.
  rewrite Hlt, Hgt, Hquot, Hapos. reflexivity.
Qed.

Lemma escapeHtml_no_markup (v : jsopt (list N)) :
  Forall (fun c => Html.markup c = false) (escapeHtml v).
Proof.
  destruct v as [| |s]; try constructor.
  rewrite escapeHtml_flat_map.
  induction s as [|u s IH]; simpl; [constructor|].
  apply Forall_app. split; [apply entity_no_markup | exact IH].
Qed.

(** C10.  [MovieCard.escapeHtml] gives the empty string for [null],
    [undefined] and the empty string, and otherwise the input with
    every [&], [<], [>], double quote and single quote replaced by its
    entity and every other character kept; so its result holds none of
    [<], [>] and the two quotes, and an [&] only at the start of an
    entity.  The title (twice) and the overview that
    [MovieCard.generateHTML] interpolates are results of
    [escapeHtml]. *)
Theorem escapeHtml_replaces_markup
  (toString : float -> string) (s : list N) (v : jsopt (list N))
  (movie : Tmdb.Movie) (options : MovieCard.Options) :
  escapeHtml JsNull = [] /\ escapeHtml JsUndefined = []
  /\ escapeHtml (JsVal []) = []
  /\ escapeHtml (JsVal s) = flat_map Html.entity s
  /\ Html.entity Html.amp = JsString.lit "&amp;"
  /\ Html.entity Html.lt = JsString.lit "&lt;"
  /\ Html.entity Html.gt = JsString.lit "&gt;"
  /\ Html.entity Html.quot = JsString.lit "&quot;"
  /\ Html.entity Html.apos = JsString.lit "&#039;"
  /\ Forall (fun c => Html.markup c = false) (escapeHtml v)
  /\ (let html := MovieCard.generateHTML toString movie options in
      MovieCard.alt html = escapeHtml (Tmdb.title movie)
      /\ MovieCard.heading html = escapeHtml (Tmdb.title movie)
      /\ Forall (fun c => Html.markup c = false) (MovieCard.alt html)
      /\ Forall (fun c => Html.markup c = false) (MovieCard.heading html)
      /\ match MovieCard.overview html with
         | Some text =>
             text = escapeHtml
                      (JsVal (truncateOverview (Tmdb.overview movie)
                                (MovieCard.overviewLength options)))
             /\ Forall (fun c => Html.markup c = false) text
         | None => MovieCard.showOverview options = false
         end).
Proof.
  repeat match goal with |- _ /\ _ => split end;
    try reflexivity;
    try apply escapeHtml_flat_map;
    try apply escapeHtml_no_markup.
  intros html. subst html.
  unfold MovieCard.generateHTML.
  cbn [MovieCard.alt MovieCard.heading MovieCard.overview].
  repeat match goal with |- _ /\ _ => split end;
    try reflexivity; try apply escapeHtml_no_markup.
  destruct (MovieCard.showOverview options); [|reflexivity].
  split; [reflexivity | apply escapeHtml_no_markup].
Qed.

(** ** Rating formatting *)

(** C7 fails on the code of the two feed controllers.  Their cards test
    [movie.vote_average] for truthiness, so that a score of [0] is
    shown as ["N/A"], where [MovieCard.formatRating] (and the test
    "should handle zero rating") give ["0.0"].  The other two values of
    the claim agree: [7.555] is shown as ["7.6"] and [null] as
    ["N/A"]. *)
Theorem feed_card_rating_of_zero
  (toString : float -> string) (id : N) (title overview : jsopt (list N)) :
  createMovieCard_rating toString (JsVal 0%float) = "N/A"%string
  /\ formatRating toString (JsVal 0%float) = "0.0"%string
  /\ createMovieCard_rating toString (JsVal 7.555%float) = "7.6"%string
  /\ formatRating toString (JsVal 7.555%float) = "7.6"%string
  /\ createMovieCard_rating toString JsNull = "N/A"%string
  /\ formatRating toString JsNull = "N/A"%string
  /\ createMovieCard_rating toString JsUndefined = "N/A"%string
  /\ formatRating toString JsUndefined = "N/A"%string
  /\ createMovieCard_rating toString (JsVal nan) = "N/A"%string
  /\ formatRating toString (JsVal nan) = "N/A"%string
  /\ FeedCard.rating
       (FeedCard.createMovieCard toString
          (Tmdb.mkMovie id title (JsVal 0%float) overview))
     = "N/A"%string
  /\ MovieCard.rating
       (MovieCard.generateHTML toString
          (Tmdb.mkMovie id title (JsVal 0%float) overview)
          MovieCard.defaults)
     = Some "0.0"%string.
Proof.
  repeat match goal with |- _ /\ _ => split end;
    vm_compute; reflexivity.
Qed.

(** ** The modal and the detail aggregator *)

(** C9.  [Modal.open(content)] on a modal that is open returns the
    modal as it is: body, flag and every other field.  So a click on a
    second card while the modal shows leaves the modal as it is (the
    loading placeholder is not written), and opening twice is the same
    as opening once. *)
Theorem open_when_open_is_noop
  (Content Json : Type) (content : Content) (m : Modal.t Content)
  (w : Details.World Json) (id : N) :
  Modal.isOpen m = true ->
  Modal.isOpen (Details.MovieModal w) = true ->
  Modal.open content m = m
  /\ Details.MovieModal (Details.step Json (Details.CardClick id) w)
     = Details.MovieModal w
  /\ (forall (first second : Content) (m0 : Modal.t Content),
         Modal.open second (Modal.open first m0) = Modal.open first m0).
Proof.
  intros Hm Hw. split; [|split].
  - unfold Modal.open. rewrite Hm. reflexivity.
  - cbn. unfold Modal.open. rewrite Hw. reflexivity.
  - intros c1 c2 m0. unfold Modal.open at 1.
    destruct (Modal.isOpen (Modal.open c1 m0)) eqn:H; [reflexivity|].
    unfold Modal.open in H. destruct (Modal.isOpen m0) eqn:H0; cbn in H;
      congruence.
Qed.

Lemma open_when_open_is_noop_witness :
  let w := Details.run nat [Details.CardClick 550%N] (Details.init nat) in
  Modal.open Details.FailedToLoad (Details.MovieModal w)
  = Details.MovieModal w
  /\ Modal.body
       (Details.MovieModal (Details.step nat (Details.CardClick 551%N) w))
     = Details.LoadingMovieDetails.
Proof.
  pose proof (open_when_open_is_noop (Details.Markup nat) nat
                Details.FailedToLoad
                (Details.MovieModal
                   (Details.run nat [Details.CardClick 550%N] (Details.init nat)))
                (Details.run nat [Details.CardClick 550%N] (Details.init nat))
                551%N eq_refl eq_refl) as [H1 [H2 _]].
  split; [exact H1 | rewrite H2; reflexivity].
Defined.




(** ** The search feed controller *)

(** What [loadSearchResults] does up to its [await]. *)
Lemma search_load_spec (w : SearchPage.World) :
  let w' := Js.exec SearchPage.loadSearchResults w in
  if search_gate w then w' = w
  else
    SearchPage.isLoading w' = true
    /\ SearchPage.in_flight w'
       = SearchPage.in_flight w
           ++ [Tmdb.mkRequest (SearchPage.searchQuery w) (SearchPage.currentPage w)]
    /\ SearchPage.sent w'
       = SearchPage.sent w
           ++ [Tmdb.mkRequest (SearchPage.searchQuery w) (SearchPage.currentPage w)]
    /\ SearchPage.currentPage w' = SearchPage.currentPage w
    /\ SearchPage.hasMorePages w' = SearchPage.hasMorePages w
    /\ SearchPage.searchQuery w' = SearchPage.searchQuery w
    /\ SearchPage.searchResults w' = SearchPage.searchResults w
    /\ SearchPage.grid w' = SearchPage.grid w
    /\ SearchPage.observing w' = SearchPage.observing w
    /\ SearchPage.answered w' = SearchPage.answered w.
Proof.
  destruct w as [cp il hm q rs g ld ob inf st an].
  unfold search_gate. unfold_search. simpl.
  destruct (il || negb hm || bool_decide (q = [])); simpl; [reflexivity|].
  destruct ld; repeat split.
Qed.

(** The observer calls [loadSearchResults] or does nothing. *)
Lemma search_intersect_spec (w : SearchPage.World) :
  Js.exec SearchPage.on_intersect w = Js.exec SearchPage.loadSearchResults w
  \/ Js.exec SearchPage.on_intersect w = w.
Proof.
  unfold Js.exec, SearchPage.on_intersect.
  destruct (_ && _); [left | right]; reflexivity.
Qed.


(** What the resumption leaves alone, however the promise settled and
    whether the grid is there or not: the [finally] block always
    clears the flag. *)
Lemma search_resume_frame (o : Tmdb.Outcome) (w : SearchPage.World) :
  let w' := Js.exec (SearchPage.loadSearchResults_resume o) w in
  SearchPage.isLoading w' = false
  /\ SearchPage.in_flight w' = SearchPage.in_flight w
  /\ SearchPage.sent w' = SearchPage.sent w
  /\ SearchPage.answered w' = SearchPage.answered w
  /\ SearchPage.searchQuery w' = SearchPage.searchQuery w
  /\ SearchPage.observing w' = SearchPage.observing w
  /\ (is_Some (SearchPage.grid w) -> is_Some (SearchPage.grid w')).
Proof.
  destruct w as [cp il hm q rs g ld ob inf st an].
  destruct o as [[res pg tot]|]; [destruct res as [|m res]|];
    destruct g as [g|]; destruct ld as [d|]; unfold_search; simpl.
  all: split_ifs.
  all: repeat split; try done.
  all: intros [? ?]; done.
Qed.



(** What [performSearch] does up to its [await]: nothing for the active
    query; otherwise the reset, then the call for page 1 unless a call
    is pending or the query is empty. *)
Lemma search_commit_spec (q : list N) (w : SearchPage.World) :
  let w' := Js.exec (SearchPage.performSearch q) w in
  if bool_decide (q = SearchPage.searchQuery w) then w' = w
  else
    SearchPage.searchQuery w' = q
    /\ SearchPage.searchResults w' = []
    /\ SearchPage.currentPage w' = 1
    /\ SearchPage.hasMorePages w' = true
    /\ SearchPage.grid w' = Some []
    /\ SearchPage.observing w' = true
    /\ SearchPage.answered w' = SearchPage.answered w
    /\ if SearchPage.isLoading w || bool_decide (q = [])
       then SearchPage.isLoading w' = SearchPage.isLoading w
            /\ SearchPage.in_flight w' = SearchPage.in_flight w
            /\ SearchPage.sent w' = SearchPage.sent w
       else SearchPage.isLoading w' = true
            /\ SearchPage.in_flight w'
               = SearchPage.in_flight w ++ [Tmdb.mkRequest q 1]
            /\ SearchPage.sent w' = SearchPage.sent w ++ [Tmdb.mkRequest q 1].
Proof.
  assert (Js.exec (SearchPage.performSearch q) w
          = if bool_decide (q = SearchPage.searchQuery w) then w
            else Js.exec SearchPage.loadSearchResults
                   (SearchPage.mk 1 (SearchPage.isLoading w) true q []
                      (Some []) (Some Modal.DisplayUnset) true
                      (SearchPage.in_flight w) (SearchPage.sent w)
                      (SearchPage.answered w))) as E.
  { unfold SearchPage.performSearch, Js.exec.
    destruct (bool_decide (q = SearchPage.searchQuery w)); reflexivity. }
  cbv zeta. rewrite E. clear E.
  destruct (bool_decide (q = SearchPage.searchQuery w)); [reflexivity|].
  match goal with
  | |- context [Js.exec SearchPage.loadSearchResults ?w0] =>
      pose proof (search_load_spec w0) as H; cbv zeta in H;
      unfold search_gate in H;
      cbn [SearchPage.isLoading SearchPage.hasMorePages
           SearchPage.searchQuery SearchPage.in_flight SearchPage.sent
           SearchPage.currentPage SearchPage.searchResults SearchPage.grid
           SearchPage.observing SearchPage.answered negb] in H;
      rewrite orb_false_r in H
  end.
  destruct (SearchPage.isLoading w || bool_decide (q = [])).
  - rewrite H. repeat split.
  - destruct H as (-> & -> & -> & -> & -> & -> & -> & -> & -> & ->).
    repeat split.
Qed.

Lemma search_clear_spec (w : SearchPage.World) :
  let w' := Js.exec SearchPage.clearSearch w in
  SearchPage.searchQuery w' = []
  /\ SearchPage.isLoading w' = SearchPage.isLoading w
  /\ SearchPage.in_flight w' = SearchPage.in_flight w
  /\ SearchPage.sent w' = SearchPage.sent w.
Proof. destruct w. repeat split. Qed.

Lemma search_load_consistent (w : SearchPage.World) :
  search_consistent w ->
  search_consistent (Js.exec SearchPage.loadSearchResults w).
Proof.
  intros (Hfl & Hdoc & Hq).
  pose proof (search_load_spec w) as H. cbv zeta in H.
  unfold search_gate in H.
  destruct (SearchPage.isLoading w) eqn:Hil; simpl in H;
    [rewrite H; unfold search_consistent; rewrite Hil; done|].
  destruct (SearchPage.hasMorePages w); simpl in H;
    [|rewrite H; unfold search_consistent; rewrite Hil; done].
  case_bool_decide as Hne;
    [rewrite H; unfold search_consistent; rewrite Hil; done|].
  destruct H as (Hil' & Hin & _ & _ & _ & Hq' & _ & Hg & Hob & _).
  unfold search_consistent.
  rewrite Hil', Hin, Hq', Hg, Hob, length_app, Hfl. simpl.
  split; [reflexivity|]. split; [exact Hdoc|].
  apply Forall_app. split; [exact Hq|]. constructor; [exact Hne|constructor].
Qed.

(** The invariant of the search controller is kept by every step. *)
Lemma search_step_consistent (ev : SearchPage.Event) (w : SearchPage.World) :
  search_consistent w -> search_consistent (SearchPage.step ev w).
Proof.
  intros Hc. destruct ev as [q| | | |i o]; unfold SearchPage.step.
  - pose proof (search_commit_spec q w) as H. cbv zeta in H.
    destruct Hc as (Hfl & Hdoc & Hq).
    case_bool_decide as Hsame; [rewrite H; done|].
    destruct H as (Hq' & _ & _ & _ & Hg & Hob & _ & H).
    unfold search_consistent. rewrite Hq', Hg, Hob.
    destruct (SearchPage.isLoading w) eqn:Hil; simpl in H.
    + destruct H as (-> & -> & _). rewrite ?Hil. done.
    + case_bool_decide as Hne; simpl in H.
      * destruct H as (-> & -> & _). rewrite ?Hil. done.
      * destruct H as (-> & -> & _). rewrite length_app, Hfl. simpl.
        split; [reflexivity|]. split; [done|].
        apply Forall_app. split; [exact Hq|].
        constructor; [exact Hne|constructor].
  - destruct w as [cp il hm q rs g ld ob inf st an].
    destruct Hc as (Hfl & Hdoc & Hq). split; [exact Hfl|].
    split; [done | exact Hq].
  - apply search_load_consistent. exact Hc.
  - destruct (search_intersect_spec w) as [-> | ->];
      [apply search_load_consistent|]; exact Hc.
  - destruct (SearchPage.in_flight w !! i) as [r|] eqn:Hi; [|exact Hc].
    destruct Hc as (Hfl & Hdoc & Hq).
    pose proof (search_resume_frame o (SearchPage.settled i r o w)) as H.
    cbv zeta in H. destruct H as (Hil & Hin & _ & _ & Hq' & Hob & Hg).
    unfold search_consistent. rewrite Hil, Hin, Hq', Hob.
    assert (length (SearchPage.in_flight w) = 1) as Hone.
    { apply lookup_lt_Some in Hi.
      destruct (SearchPage.isLoading w); lia. }
    destruct w as [cp il hm q rs g ld ob inf st an]. simpl in *.
    destruct inf as [|r0 [|r1 inf]]; simpl in Hone; try lia.
    destruct i as [|i]; [|done]. simpl.
    split; [reflexivity|]. split; [|constructor].
    intros Hne. destruct (Hdoc Hne) as [Hsome Hobs]. split; [|exact Hobs].
    apply Hg. exact Hsome.
Qed.

Lemma search_init_consistent : search_consistent SearchPage.init.
Proof. split; [reflexivity|]. split; [done | constructor]. Qed.

Lemma search_run_consistent (evs : list SearchPage.Event)
  (w : SearchPage.World) :
  search_consistent w -> search_consistent (SearchPage.run evs w).
Proof.
  revert w. induction evs as [|ev evs IH]; intros w Hc; [exact Hc|].
  apply IH, search_step_consistent, Hc.
Qed.

Lemma search_reachable_consistent (evs : list SearchPage.Event) :
  search_consistent (SearchPage.run evs SearchPage.init).
Proof. apply search_run_consistent, search_init_consistent. Qed.

(** While a call is pending, a continuation trigger changes nothing. *)
Lemma search_trigger_gated (ev : SearchPage.Event) (w : SearchPage.World) :
  SearchPage.is_trigger ev = true ->
  SearchPage.isLoading w = true \/ SearchPage.hasMorePages w = false ->
  SearchPage.step ev w = w.
Proof.
  intros Hev Hg.
  assert (Js.exec SearchPage.loadSearchResults w = w) as Hload.
  { pose proof (search_load_spec w) as H. cbv zeta in H.
    unfold search_gate in H. destruct Hg as [Hg | Hg]; rewrite Hg in H.
    - exact H.
    - simpl in H. rewrite orb_true_r in H. exact H. }
  destruct ev; try discriminate; unfold SearchPage.step; [exact Hload|].
  destruct (search_intersect_spec w) as [-> | ->]; [exact Hload|reflexivity].
Qed.


(** ** The browse feed controller *)

(** What [loadMovies] does up to its [await]. *)
Lemma browse_load_spec (w : NowPlayingPage.World) :
  let w' := Js.exec NowPlayingPage.loadMovies w in
  if NowPlayingPage.isLoading w || negb (NowPlayingPage.hasMorePages w)
  then w' = w
  else
    NowPlayingPage.isLoading w' = true
    /\ NowPlayingPage.in_flight w'
       = NowPlayingPage.in_flight w
           ++ [Tmdb.mkRequest [] (NowPlayingPage.currentPage w)]
    /\ NowPlayingPage.sent w'
       = NowPlayingPage.sent w
           ++ [Tmdb.mkRequest [] (NowPlayingPage.currentPage w)]
    /\ NowPlayingPage.currentPage w' = NowPlayingPage.currentPage w
    /\ NowPlayingPage.hasMorePages w' = NowPlayingPage.hasMorePages w
    /\ NowPlayingPage.movies w' = NowPlayingPage.movies w
    /\ NowPlayingPage.grid w' = NowPlayingPage.grid w
    /\ NowPlayingPage.answered w' = NowPlayingPage.answered w.
Proof.
  destruct w as [cp il hm ms g ld sp inf st an].
  unfold_browse. simpl.
  destruct (il || negb hm); simpl; [reflexivity | repeat split].
Qed.

Lemma browse_intersect_spec (w : NowPlayingPage.World) :
  Js.exec NowPlayingPage.on_intersect w = Js.exec NowPlayingPage.loadMovies w.
Proof.
  destruct w as [cp il hm ms g ld sp inf st an].
  unfold_browse. simpl. destruct il, hm; reflexivity.
Qed.

(** The resumption: the [finally] block always clears the flag. *)
Lemma browse_resume_frame (o : Tmdb.Outcome) (w : NowPlayingPage.World) :
  let w' := Js.exec (NowPlayingPage.loadMovies_resume o) w in
  NowPlayingPage.isLoading w' = false
  /\ NowPlayingPage.in_flight w' = NowPlayingPage.in_flight w
  /\ NowPlayingPage.sent w' = NowPlayingPage.sent w
  /\ NowPlayingPage.answered w' = NowPlayingPage.answered w.
Proof.
  destruct w as [cp il hm ms g ld sp inf st an].
  destruct o as [[res pg tot]|]; [destruct res as [|m res]|];
    unfold_browse; simpl.
  all: split_ifs.
  all: repeat split.
Qed.

Lemma browse_resume_rejected (w : NowPlayingPage.World) :
  let w' := Js.exec (NowPlayingPage.loadMovies_resume Tmdb.Rejected) w in
  NowPlayingPage.movies w' = NowPlayingPage.movies w
  /\ NowPlayingPage.currentPage w' = NowPlayingPage.currentPage w
  /\ NowPlayingPage.hasMorePages w' = NowPlayingPage.hasMorePages w
  /\ NowPlayingPage.grid w'
     = NowPlayingPage.grid w
         ++ [ErrorMessage "Failed to load movies. Please try again."].
Proof.
  destruct w as [cp il hm ms g ld sp inf st an].
  unfold_browse; simpl. split_ifs. all: repeat split.
Qed.

Lemma browse_resume_fulfilled (data : Tmdb.Page) (w : NowPlayingPage.World) :
  let w' :=
    Js.exec (NowPlayingPage.loadMovies_resume (Tmdb.Fulfilled data)) w in
  NowPlayingPage.movies w' = NowPlayingPage.movies w ++ Tmdb.results data
  /\ NowPlayingPage.grid w'
     = NowPlayingPage.grid w ++ map Card (Tmdb.results data)
  /\ match Tmdb.results data with
     | [] =>
         NowPlayingPage.currentPage w' = NowPlayingPage.currentPage w
         /\ NowPlayingPage.hasMorePages w' = false
     | _ :: _ =>
         NowPlayingPage.currentPage w' = S (NowPlayingPage.currentPage w)
         /\ NowPlayingPage.hasMorePages w'
            = (S (NowPlayingPage.currentPage w) <=? Tmdb.total_pages data)%nat
     end.
Proof.
  destruct w as [cp il hm ms g ld sp inf st an].
  destruct data as [res pg tot]. destruct res as [|m res];
    unfold_browse; simpl.
  all: split_ifs.
  all: rewrite ?app_nil_r; repeat split.
Qed.

Lemma browse_load_consistent (w : NowPlayingPage.World) :
  browse_consistent w ->
  browse_consistent (Js.exec NowPlayingPage.loadMovies w).
Proof.
  intros (Hfl & Hcur).
  pose proof (browse_load_spec w) as H. cbv zeta in H.
  destruct (NowPlayingPage.isLoading w) eqn:Hil; simpl in H;
    [rewrite H; unfold browse_consistent; rewrite Hil; done|].
  destruct (NowPlayingPage.hasMorePages w); simpl in H;
    [|rewrite H; unfold browse_consistent; rewrite Hil; done].
  destruct H as (Hil' & Hin & _ & Hcp & _).
  unfold browse_consistent.
  rewrite Hil', Hin, Hcp, length_app, Hfl. simpl.
  split; [reflexivity|].
  apply Forall_app. split; [exact Hcur|]. constructor; [reflexivity|constructor].
Qed.

(** The invariant of the browse controller is kept by every step. *)
Lemma browse_step_consistent (ev : NowPlayingPage.Event)
  (w : NowPlayingPage.World) :
  browse_consistent w -> browse_consistent (NowPlayingPage.step ev w).
Proof.
  intros Hc. destruct ev as [| |i o]; unfold NowPlayingPage.step.
  - apply browse_load_consistent. exact Hc.
  - rewrite browse_intersect_spec. apply browse_load_consistent. exact Hc.
  - destruct (NowPlayingPage.in_flight w !! i) as [r|] eqn:Hi; [|exact Hc].
    destruct Hc as (Hfl & Hcur).
    pose proof (browse_resume_frame o (NowPlayingPage.settled i r o w)) as H.
    cbv zeta in H. destruct H as (Hil & Hin & _ & _).
    unfold browse_consistent. rewrite Hil, Hin.
    assert (length (NowPlayingPage.in_flight w) = 1) as Hone.
    { apply lookup_lt_Some in Hi.
      destruct (NowPlayingPage.isLoading w); lia. }
    destruct w as [cp il hm ms g ld sp inf st an]. simpl in *.
    destruct inf as [|r0 [|r1 inf]]; simpl in Hone; try lia.
    destruct i as [|i]; [|done]. simpl.
    split; [reflexivity | constructor].
Qed.

Lemma browse_init_consistent : browse_consistent NowPlayingPage.init.
Proof. split; [reflexivity | constructor]. Qed.

Lemma browse_run_consistent (evs : list NowPlayingPage.Event)
  (w : NowPlayingPage.World) :
  browse_consistent w -> browse_consistent (NowPlayingPage.run evs w).
Proof.
  revert w. induction evs as [|ev evs IH]; intros w Hc; [exact Hc|].
  apply IH, browse_step_consistent, Hc.
Qed.

Lemma browse_reachable_consistent (evs : list NowPlayingPage.Event) :
  browse_consistent (NowPlayingPage.run evs NowPlayingPage.init).
Proof. apply browse_run_consistent, browse_init_consistent. Qed.

Lemma browse_trigger_gated (ev : NowPlayingPage.Event)
  (w : NowPlayingPage.World) :
  NowPlayingPage.is_trigger ev = true ->
  NowPlayingPage.isLoading w = true \/ NowPlayingPage.hasMorePages w = false ->
  NowPlayingPage.step ev w = w.
Proof.
  intros Hev Hg.
  assert (Js.exec NowPlayingPage.loadMovies w = w) as Hload.
  { pose proof (browse_load_spec w) as H. cbv zeta in H.
    destruct Hg as [Hg | Hg]; rewrite Hg in H.
    - exact H.
    - simpl in H. rewrite orb_true_r in H. exact H. }
  destruct ev; try discriminate; unfold NowPlayingPage.step;
    [|rewrite browse_intersect_spec]; exact Hload.
Qed.


(** ** One fetch at a time *)

(** A step of the search controller makes no call, or makes one call
    and takes the flag from clear to set. *)
Lemma search_step_sent (ev : SearchPage.Event) (w : SearchPage.World) :
  SearchPage.sent (SearchPage.step ev w) = SearchPage.sent w
  \/ (SearchPage.isLoading w = false
      /\ SearchPage.isLoading (SearchPage.step ev w) = true
      /\ exists r,
          SearchPage.sent (SearchPage.step ev w) = SearchPage.sent w ++ [r]
          /\ SearchPage.in_flight (SearchPage.step ev w)
             = SearchPage.in_flight w ++ [r]).
Proof.
  assert (forall w0,
             SearchPage.sent (Js.exec SearchPage.loadSearchResults w0)
             = SearchPage.sent w0
             \/ (SearchPage.isLoading w0 = false
                 /\ SearchPage.isLoading
                      (Js.exec SearchPage.loadSearchResults w0) = true
                 /\ exists r,
                     SearchPage.sent (Js.exec SearchPage.loadSearchResults w0)
                     = SearchPage.sent w0 ++ [r]
                     /\ SearchPage.in_flight
                          (Js.exec SearchPage.loadSearchResults w0)
                        = SearchPage.in_flight w0 ++ [r])) as Hload.
  { intros w0. pose proof (search_load_spec w0) as H. cbv zeta in H.
    unfold search_gate in H.
    destruct (SearchPage.isLoading w0) eqn:Hil; simpl in H;
      [left; rewrite H; reflexivity|].
    destruct (negb (SearchPage.hasMorePages w0)
              || bool_decide (SearchPage.searchQuery w0 = []));
      [left; rewrite H; reflexivity|].
    destruct H as (H1 & H2 & H3 & _). right.
    split; [reflexivity|]. split; [exact H1|]. eexists. split; eassumption. }
  destruct ev as [q| | | |i o]; unfold SearchPage.step.
  - pose proof (search_commit_spec q w) as H. cbv zeta in H.
    case_bool_decide; [left; rewrite H; reflexivity|].
    destruct H as (_ & _ & _ & _ & _ & _ & _ & H).
    destruct (SearchPage.isLoading w) eqn:Hil; simpl in H;
      [left; apply H|].
    destruct (bool_decide (q = [])); [left; apply H|].
    destruct H as (H1 & H2 & H3). right.
    split; [reflexivity|]. split; [exact H1|]. eexists. split; eassumption.
  - left. apply search_clear_spec.
  - apply Hload.
  - destruct (search_intersect_spec w) as [-> | ->];
      [apply Hload | left; reflexivity].
  - destruct (SearchPage.in_flight w !! i) as [r|]; [|left; reflexivity].
    left.
    pose proof (search_resume_frame o (SearchPage.settled i r o w)) as H.
    cbv zeta in H. destruct H as (_ & _ & -> & _). reflexivity.
Qed.

(** Only the settling of the call clears the flag of the search
    controller. *)
Lemma search_step_keeps_flag (ev : SearchPage.Event) (w : SearchPage.World) :
  SearchPage.is_settle ev = false ->
  SearchPage.isLoading w = true ->
  SearchPage.isLoading (SearchPage.step ev w) = true.
Proof.
  intros Hev Hil. destruct ev as [q| | | |i o]; try discriminate.
  - unfold SearchPage.step.
    pose proof (search_commit_spec q w) as H. cbv zeta in H.
    case_bool_decide; [rewrite H; exact Hil|].
    destruct H as (_ & _ & _ & _ & _ & _ & _ & H).
    rewrite Hil in H. simpl in H. destruct H as (-> & _). reflexivity.
  - unfold SearchPage.step.
    destruct (search_clear_spec w) as (_ & -> & _). exact Hil.
  - rewrite search_trigger_gated; [exact Hil | reflexivity | left; exact Hil].
  - rewrite search_trigger_gated; [exact Hil | reflexivity | left; exact Hil].
Qed.

Lemma browse_step_sent (ev : NowPlayingPage.Event)
  (w : NowPlayingPage.World) :
  NowPlayingPage.sent (NowPlayingPage.step ev w) = NowPlayingPage.sent w
  \/ (NowPlayingPage.isLoading w = false
      /\ NowPlayingPage.isLoading (NowPlayingPage.step ev w) = true
      /\ exists r,
          NowPlayingPage.sent (NowPlayingPage.step ev w)
          = NowPlayingPage.sent w ++ [r]
          /\ NowPlayingPage.in_flight (NowPlayingPage.step ev w)
             = NowPlayingPage.in_flight w ++ [r]).
Proof.
  assert (NowPlayingPage.sent (Js.exec NowPlayingPage.loadMovies w)
          = NowPlayingPage.sent w
          \/ (NowPlayingPage.isLoading w = false
              /\ NowPlayingPage.isLoading
                   (Js.exec NowPlayingPage.loadMovies w) = true
              /\ exists r,
                  NowPlayingPage.sent (Js.exec NowPlayingPage.loadMovies w)
                  = NowPlayingPage.sent w ++ [r]
                  /\ NowPlayingPage.in_flight
                       (Js.exec NowPlayingPage.loadMovies w)
                     = NowPlayingPage.in_flight w ++ [r])) as Hload.
  { pose proof (browse_load_spec w) as H. cbv zeta in H.
    destruct (NowPlayingPage.isLoading w) eqn:Hil; simpl in H;
      [left; rewrite H; reflexivity|].
    destruct (negb (NowPlayingPage.hasMorePages w));
      [left; rewrite H; reflexivity|].
    destruct H as (H1 & H2 & H3 & _). right.
    split; [reflexivity|]. split; [exact H1|]. eexists. split; eassumption. }
  destruct ev as [| |i o]; unfold NowPlayingPage.step.
  - exact Hload.
  - rewrite browse_intersect_spec. exact Hload.
  - destruct (NowPlayingPage.in_flight w !! i) as [r|]; [|left; reflexivity].
    left.
    pose proof (browse_resume_frame o (NowPlayingPage.settled i r o w)) as H.
    cbv zeta in H. destruct H as (_ & _ & -> & _). reflexivity.
Qed.

Lemma browse_step_keeps_flag (ev : NowPlayingPage.Event)
  (w : NowPlayingPage.World) :
  NowPlayingPage.is_settle ev = false ->
  NowPlayingPage.isLoading w = true ->
  NowPlayingPage.isLoading (NowPlayingPage.step ev w) = true.
Proof.
  intros Hev Hil. destruct ev as [| |i o]; try discriminate.
  - rewrite browse_trigger_gated; [exact Hil | reflexivity | left; exact Hil].
  - rewrite browse_trigger_gated; [exact Hil | reflexivity | left; exact Hil].
Qed.

(** C1.  After any history of events (calls of the fetch operation,
    observer callbacks, query commits, clearing, promises settling in
    any order), each controller has at most one page fetch pending, and
    exactly one while its flag [isLoading] is set.  The flag gates the
    operation at its top (a call while it is set changes nothing); a
    step that makes a remote call finds the flag clear and leaves it
    set; and a step that finds the flag set and leaves it clear is the
    settling of the call. *)
Theorem at_most_one_fetch_in_flight
  (history : list SearchPage.Event) (browsing : list NowPlayingPage.Event)
  (ev : SearchPage.Event) (bev : NowPlayingPage.Event) :
  let s := SearchPage.run history SearchPage.init in
  let b := NowPlayingPage.run browsing NowPlayingPage.init in
  length (SearchPage.in_flight s) <= 1
  /\ length (NowPlayingPage.in_flight b) <= 1
  /\ length (SearchPage.in_flight s)
     = (if SearchPage.isLoading s then 1 else 0)
  /\ length (NowPlayingPage.in_flight b)
     = (if NowPlayingPage.isLoading b then 1 else 0)
  /\ (SearchPage.isLoading s = true ->
      Js.exec SearchPage.loadSearchResults s = s
      /\ Js.exec SearchPage.on_intersect s = s)
  /\ (NowPlayingPage.isLoading b = true ->
      Js.exec NowPlayingPage.loadMovies b = b
      /\ Js.exec NowPlayingPage.on_intersect b = b)
  /\ (SearchPage.sent (SearchPage.step ev s) <> SearchPage.sent s ->
      SearchPage.isLoading s = false
      /\ SearchPage.isLoading (SearchPage.step ev s) = true
      /\ length (SearchPage.in_flight (SearchPage.step ev s)) = 1)
  /\ (NowPlayingPage.sent (NowPlayingPage.step bev b) <> NowPlayingPage.sent b ->
      NowPlayingPage.isLoading b = false
      /\ NowPlayingPage.isLoading (NowPlayingPage.step bev b) = true
      /\ length (NowPlayingPage.in_flight (NowPlayingPage.step bev b)) = 1)
  /\ (SearchPage.isLoading s = true ->
      SearchPage.isLoading (SearchPage.step ev s) = false ->
      SearchPage.is_settle ev = true)
  /\ (NowPlayingPage.isLoading b = true ->
      NowPlayingPage.isLoading (NowPlayingPage.step bev b) = false ->
      NowPlayingPage.is_settle bev = true).
Proof.
  intros s b.
  pose proof (search_reachable_consistent history) as Hs. fold s in Hs.
  pose proof (browse_reachable_consistent browsing) as Hb. fold b in Hb.
  pose proof (search_step_consistent ev s Hs) as (Hs' & _).
  pose proof (browse_step_consistent bev b Hb) as (Hb' & _).
  destruct Hs as (Hs1 & _), Hb as (Hb1 & _).
  repeat match goal with |- _ /\ _ => split end.
  - rewrite Hs1. destruct (SearchPage.isLoading s); lia.
  - rewrite Hb1. destruct (NowPlayingPage.isLoading b); lia.
  - exact Hs1.
  - exact Hb1.
  - intros Hil. split.
    + apply (search_trigger_gated SearchPage.LoadSearchResults);
        [reflexivity | left; exact Hil].
    + apply (search_trigger_gated SearchPage.Intersect);
        [reflexivity | left; exact Hil].
  - intros Hil. split.
    + apply (browse_trigger_gated NowPlayingPage.LoadMovies);
        [reflexivity | left; exact Hil].
    + apply (browse_trigger_gated NowPlayingPage.Intersect);
        [reflexivity | left; exact Hil].
  - intros Hne. destruct (search_step_sent ev s) as [H | (H1 & H2 & _)];
      [contradiction|].
    rewrite Hs', H2. done.
  - intros Hne. destruct (browse_step_sent bev b) as [H | (H1 & H2 & _)];
      [contradiction|].
    rewrite Hb', H2. done.
  - intros Hil Hil'. destruct (SearchPage.is_settle ev) eqn:Hev; [reflexivity|].
    rewrite (search_step_keeps_flag ev s Hev Hil) in Hil'. discriminate.
  - intros Hil Hil'.
    destruct (NowPlayingPage.is_settle bev) eqn:Hev; [reflexivity|].
    rewrite (browse_step_keeps_flag bev b Hev Hil) in Hil'. discriminate.
Qed.

Lemma at_most_one_fetch_in_flight_witness :
  let pending :=
    SearchPage.run [SearchPage.PerformSearch (JsString.lit "dune")]
      SearchPage.init in
  let bpending :=
    NowPlayingPage.run [NowPlayingPage.LoadMovies] NowPlayingPage.init in
  (Js.exec SearchPage.loadSearchResults pending = pending
   /\ Js.exec SearchPage.on_intersect pending = pending)
  /\ (Js.exec NowPlayingPage.loadMovies bpending = bpending
      /\ Js.exec NowPlayingPage.on_intersect bpending = bpending)
  /\ (SearchPage.is_settle (SearchPage.Settle 0 Tmdb.Rejected) = true
      /\ NowPlayingPage.is_settle (NowPlayingPage.Settle 0 Tmdb.Rejected)
         = true)
  /\ (length
        (SearchPage.in_flight
           (SearchPage.step (SearchPage.PerformSearch (JsString.lit "dune"))
              (SearchPage.run [] SearchPage.init))) = 1
      /\ length
           (NowPlayingPage.in_flight
              (NowPlayingPage.step NowPlayingPage.LoadMovies
                 (NowPlayingPage.run [] NowPlayingPage.init))) = 1).
Proof.
  intros pending bpending.
  assert (SearchPage.isLoading pending = true) as Hs
    by (vm_compute; reflexivity).
  assert (NowPlayingPage.isLoading bpending = true) as Hb
    by (vm_compute; reflexivity).
  assert (SearchPage.isLoading
            (SearchPage.step (SearchPage.Settle 0 Tmdb.Rejected) pending)
          = false) as Hs' by (vm_compute; reflexivity).
  assert (NowPlayingPage.isLoading
            (NowPlayingPage.step (NowPlayingPage.Settle 0 Tmdb.Rejected)
               bpending) = false) as Hb' by (vm_compute; reflexivity).
  assert (SearchPage.sent
            (SearchPage.step (SearchPage.PerformSearch (JsString.lit "dune"))
               (SearchPage.run [] SearchPage.init))
          <> SearchPage.sent (SearchPage.run [] SearchPage.init)) as Hsent
    by (vm_compute; discriminate).
  assert (NowPlayingPage.sent
            (NowPlayingPage.step NowPlayingPage.LoadMovies
               (NowPlayingPage.run [] NowPlayingPage.init))
          <> NowPlayingPage.sent
               (NowPlayingPage.run [] NowPlayingPage.init)) as Hbsent
    by (vm_compute; discriminate).
  pose proof (at_most_one_fetch_in_flight
                [SearchPage.PerformSearch (JsString.lit "dune")]
                [NowPlayingPage.LoadMovies]
                (SearchPage.Settle 0 Tmdb.Rejected)
                (NowPlayingPage.Settle 0 Tmdb.Rejected)) as H.
  cbv zeta in H.
  destruct H as (_ & _ & _ & _ & H5 & H6 & _ & _ & H9 & H10).
  pose proof (at_most_one_fetch_in_flight [] []
                (SearchPage.PerformSearch (JsString.lit "dune"))
                NowPlayingPage.LoadMovies) as G.
  cbv zeta in G.
  destruct G as (_ & _ & _ & _ & _ & _ & G7 & G8 & _).
  split; [exact (H5 Hs)|]. split; [exact (H6 Hb)|].
  split; [exact (conj (H9 Hs Hs') (H10 Hb Hb'))|].
  exact (conj (proj2 (proj2 (G7 Hsent))) (proj2 (proj2 (G8 Hbsent)))).
Defined.

(** ** A fetch from call to settlement *)







(** ** A fetch that fails *)



(** ** The last page *)







(** ** Query commits *)



(** After a commit of [q], [q] is the active query. *)
Lemma search_commit_query (q : list N) (w : SearchPage.World) :
  SearchPage.searchQuery (SearchPage.step (SearchPage.PerformSearch q) w) = q.
Proof.
  unfold SearchPage.step.
  pose proof (search_commit_spec q w) as H. cbv zeta in H.
  case_bool_decide as Hq; [rewrite H; symmetry; exact Hq | apply H].
Qed.










(** * Properties of more of the code *)

(** ** The life of a modal *)





(** X2.  A modal that is closing still has its flag [isOpen] set
    until the timer of [close] fires, so [open] in between does
    nothing: the content that was to be shown is dropped, and when the
    timer fires the modal is closed with the body it had.  [toggle] in
    between calls [close] again. *)
Theorem closing_modal_ignores_open (Content : Type) (m : Modal.t Content)
  (content : Content) :
  Modal.isOpen m = true ->
  Modal.isOpen (Modal.close m) = true
  /\ Modal.open content (Modal.close m) = Modal.close m
  /\ Modal.toggle Content content (Modal.close m)
     = Modal.close (Modal.close m)
  /\ Modal.isOpen (Modal.close_timeout (Modal.open content (Modal.close m)))
     = false
  /\ Modal.body (Modal.close_timeout (Modal.open content (Modal.close m)))
     = Modal.body m.
Proof.
  destruct m as [o b d oo mo sl cf fr ti att]. cbn [Modal.isOpen].
  intros ->. repeat split.
Qed.

Lemma closing_modal_ignores_open_witness :
  Modal.open 2 (Modal.close (Modal.open 1 (Modal.create nat 0)))
  = Modal.close (Modal.open 1 (Modal.create nat 0)).
Proof.
  apply (closing_modal_ignores_open nat (Modal.open 1 (Modal.create nat 0)) 2).
  reflexivity.
Defined.

(** X3.  Every [close] on an open modal starts a timer of its own, and
    no timer is ever cancelled.  When [close] is called twice on an
    open modal, the first timer closes it; if the modal is opened again
    before the second timer fires, that timer closes the new modal
    too, with its content in the body. *)
Theorem leftover_timer_closes_reopened_modal (Content : Type)
  (m : Modal.t Content) (content : Content) :
  Modal.isOpen m = true ->
  let closed := ModalLife.run
                  [ModalLife.Close; ModalLife.Close; ModalLife.CloseTimeout] m in
  let reopened := ModalLife.step (ModalLife.Open content) closed in
  let after := ModalLife.step ModalLife.CloseTimeout reopened in
  Modal.timers (Modal.close (Modal.close m)) = S (S (Modal.timers m))
  /\ Modal.isOpen closed = false
  /\ Modal.timers closed = S (Modal.timers m)
  /\ Modal.isOpen reopened = true
  /\ Modal.body reopened = content
  /\ Modal.overlay_display Content reopened = Modal.DisplayFlex
  /\ Modal.isOpen after = false
  /\ Modal.body after = content
  /\ Modal.overlay_display Content after = Modal.DisplayNone.
Proof.
  destruct m as [o b d oo mo sl cf fr ti att]. cbn [Modal.isOpen].
  intros ->. repeat split.
Qed.

Lemma leftover_timer_closes_reopened_modal_witness :
  Modal.isOpen
    (ModalLife.step ModalLife.CloseTimeout
       (ModalLife.step (ModalLife.Open 2)
          (ModalLife.run
             [ModalLife.Close; ModalLife.Close; ModalLife.CloseTimeout]
             (Modal.open 1 (Modal.create nat 0)))))
  = false.
Proof.
  apply (leftover_timer_closes_reopened_modal nat
           (Modal.open 1 (Modal.create nat 0)) 2).
  reflexivity.
Defined.

(** ** The search box *)

Lemma trim_is_trimmed (s : list N) : is_trimmed (JsString.trim s) = true.
Proof.
  destruct (trim_ends s) as [Hh Ht]. unfold is_trimmed, starts_with_white_space.
  destruct (JsString.trim s) as [|c t]; [reflexivity|].
  rewrite Hh. cbn [negb andb].
  destruct (rev (c :: t)); [reflexivity | rewrite Ht; reflexivity].
Qed.

Lemma is_trimmed_trim (s : list N) :
  is_trimmed s = true -> JsString.trim s = s.
Proof.
  unfold is_trimmed, starts_with_white_space. intros H.
  apply andb_prop in H as [Hh Ht].
  assert (forall l, match l with
                    | c :: _ => negb (JsString.is_white_space c) = true
                    | [] => True
                    end -> JsString.trimStart l = l) as Hstart.
  { intros [|c l] Hc; [reflexivity|]. simpl.
    destruct (JsString.is_white_space c); [discriminate | reflexivity]. }
  unfold JsString.trim, JsString.trimEnd.
  rewrite (Hstart s).
  - rewrite (Hstart (rev s)); [apply rev_involutive|].
    destruct (rev s); [exact I | exact Ht].
  - destruct s; [exact I | exact Hh].
Qed.

(** What a continuation trigger does to the active query and to the
    calls made. *)
Lemma search_trigger_effect (ev : SearchPage.Event) (w : SearchPage.World) :
  SearchPage.is_trigger ev = true ->
  SearchPage.searchQuery (SearchPage.step ev w) = SearchPage.searchQuery w
  /\ (SearchPage.sent (SearchPage.step ev w) = SearchPage.sent w
      \/ (SearchPage.searchQuery w <> []
          /\ SearchPage.sent (SearchPage.step ev w)
             = SearchPage.sent w
                 ++ [Tmdb.mkRequest (SearchPage.searchQuery w)
                       (SearchPage.currentPage w)])).
Proof.
  intros Hev.
  assert (SearchPage.step ev w = w
          \/ SearchPage.step ev w = Js.exec SearchPage.loadSearchResults w)
    as [-> | ->].
  { destruct ev; try discriminate; unfold SearchPage.step;
      [right; reflexivity|].
    destruct (search_intersect_spec w) as [-> | ->]; [right | left];
      reflexivity. }
  - split; [reflexivity | left; reflexivity].
  - pose proof (search_load_spec w) as H. cbv zeta in H.
    unfold search_gate in H.
    destruct (SearchPage.isLoading w || negb (SearchPage.hasMorePages w));
      simpl in H; [rewrite H; split; [reflexivity | left; reflexivity]|].
    case_bool_decide as Hq;
      [rewrite H; split; [reflexivity | left; reflexivity]|].
    destruct H as (_ & _ & H3 & _ & _ & H6 & _).
    split; [exact H6 | right; split; [exact Hq | exact H3]].
Qed.

(** The settling of a call changes neither the active query nor the
    calls made. *)
Lemma search_settle_effect (i : nat) (o : Tmdb.Outcome) (w : SearchPage.World) :
  SearchPage.searchQuery (SearchPage.step (SearchPage.Settle i o) w)
  = SearchPage.searchQuery w
  /\ SearchPage.sent (SearchPage.step (SearchPage.Settle i o) w)
     = SearchPage.sent w.
Proof.
  unfold SearchPage.step.
  destruct (SearchPage.in_flight w !! i) as [r|]; [|split; reflexivity].
  pose proof (search_resume_frame o (SearchPage.settled i r o w))
    as (_ & _ & F3 & _ & F5 & _).
  search_fields. split; assumption.
Qed.

(** What a commit does to the calls made. *)
Lemma search_commit_effect (q : list N) (w : SearchPage.World) :
  SearchPage.sent (SearchPage.step (SearchPage.PerformSearch q) w)
  = SearchPage.sent w
  \/ (q <> []
      /\ SearchPage.sent (SearchPage.step (SearchPage.PerformSearch q) w)
         = SearchPage.sent w ++ [Tmdb.mkRequest q 1]).
Proof.
  unfold SearchPage.step.
  pose proof (search_commit_spec q w) as H. cbv zeta in H.
  case_bool_decide; [left; rewrite H; reflexivity|].
  destruct H as (_ & _ & _ & _ & _ & _ & _ & H).
  destruct (SearchPage.isLoading w); simpl in H; [left; apply H|].
  case_bool_decide as Hq; [left; apply H|].
  right. split; [exact Hq | apply H].
Qed.

(** The timers that are left when [handleSearchInput] has cleared the
    one that [this.searchTimeout] names. *)
Lemma search_input_cleared (w : SearchInput.World) :
  SearchInput.consistent w ->
  match SearchInput.searchTimeout w with
  | Some handle => SearchInput.clearTimeout handle (SearchInput.timers w)
  | None => SearchInput.timers w
  end = [].
Proof.
  intros ([Ht | (h & q & Ht & Hs & _)] & _).
  - rewrite Ht. destruct (SearchInput.searchTimeout w); reflexivity.
  - rewrite Ht, Hs. unfold SearchInput.clearTimeout.
    rewrite filter_cons_False by (simpl; intros H; apply H; reflexivity).
    reflexivity.
Qed.

(** What [handleSearchInput] leaves. *)
Lemma search_input_spec (text : list N) (w : SearchInput.World) :
  SearchInput.consistent w ->
  SearchInput.handleSearchInput text w
  = match JsString.trim text with
    | [] =>
        SearchInput.mk (Js.exec SearchPage.clearSearch (SearchInput.page w))
          [] (SearchInput.searchTimeout w) [] (SearchInput.next_handle w)
    | _ :: _ =>
        SearchInput.mk (SearchInput.page w) text
          (Some (SearchInput.next_handle w))
          [(SearchInput.next_handle w, JsString.trim text)]
          (S (SearchInput.next_handle w))
    end.
Proof.
  intros Hc. unfold SearchInput.handleSearchInput.
  rewrite (search_input_cleared w Hc).
  destruct (JsString.trim text); reflexivity.
Qed.

(** The invariant of the search box is kept by every step. *)
Lemma search_input_step_consistent (ev : SearchInput.Event)
  (w : SearchInput.World) :
  SearchInput.consistent w -> SearchInput.consistent (SearchInput.step ev w).
Proof.
  intros Hc. pose proof Hc as (Ht & Hq & Hsent).
  assert (SearchInput.consistent (SearchInput.clearSearch w)) as Hclear.
  { unfold SearchInput.consistent, SearchInput.clearSearch.
    cbn [SearchInput.timers SearchInput.searchTimeout SearchInput.page].
    destruct (search_clear_spec (SearchInput.page w)) as (-> & _ & _ & ->).
    split; [exact Ht|]. split; [reflexivity | exact Hsent]. }
  destruct ev as [text|k| | | |i o]; cbn [SearchInput.step].
  - rewrite (search_input_spec text w Hc).
    pose proof (trim_is_trimmed text) as Htrim.
    destruct (JsString.trim text) as [|c t] eqn:E.
    + unfold SearchInput.consistent.
      cbn [SearchInput.timers SearchInput.searchTimeout SearchInput.page].
      destruct (search_clear_spec (SearchInput.page w)) as (-> & _ & _ & ->).
      split; [left; reflexivity|]. split; [reflexivity | exact Hsent].
    + unfold SearchInput.consistent.
      cbn [SearchInput.timers SearchInput.searchTimeout SearchInput.page].
      split; [|split; assumption].
      right. eexists _, _. split; [reflexivity|].
      split; [reflexivity|]. split; [discriminate | exact Htrim].
  - unfold SearchInput.timeout.
    destruct (SearchInput.timers w !! k) as [[h q]|] eqn:Hk; [|exact Hc].
    destruct Ht as [Ht | (h0 & q0 & Ht & _ & Hne & Htrim)];
      [rewrite Ht in Hk; discriminate|].
    rewrite Ht in Hk. destruct k as [|k]; [|discriminate].
    injection Hk as <- <-.
    unfold SearchInput.consistent.
    cbn [SearchInput.timers SearchInput.searchTimeout SearchInput.page].
    rewrite Ht, search_commit_query. cbn [delete list_delete].
    split; [left; reflexivity|]. split; [exact Htrim|].
    destruct (search_commit_effect q0 (SearchInput.page w)) as [-> | [_ ->]];
      [exact Hsent|].
    apply Forall_app. split; [exact Hsent|].
    constructor; [split; assumption | constructor].
  - exact Hclear.
  - exact Hclear.
  - unfold SearchInput.on_page, SearchInput.consistent.
    cbn [SearchInput.timers SearchInput.searchTimeout SearchInput.page].
    destruct (search_trigger_effect SearchPage.Intersect (SearchInput.page w)
                eq_refl) as (-> & [-> | [Hne ->]]);
      (split; [exact Ht|]); (split; [exact Hq|]); [exact Hsent|].
    apply Forall_app. split; [exact Hsent|].
    constructor; [split; assumption | constructor].
  - unfold SearchInput.on_page, SearchInput.consistent.
    cbn [SearchInput.timers SearchInput.searchTimeout SearchInput.page].
    destruct (search_settle_effect i o (SearchInput.page w)) as (-> & ->).
    split; [exact Ht|]. split; assumption.
Qed.

Lemma search_input_reachable_consistent (evs : list SearchInput.Event) :
  SearchInput.consistent (SearchInput.run evs SearchInput.init).
Proof.
  assert (SearchInput.consistent SearchInput.init) as H0.
  { split; [left; reflexivity|]. split; [reflexivity | constructor]. }
  revert H0. generalize SearchInput.init.
  induction evs as [|ev evs IH]; intros w Hc; [exact Hc|].
  apply IH, search_input_step_consistent, Hc.
Qed.

(** X4.  After any history of the search box (edits, timers firing,
    Escape, the clear button, observer callbacks, promises settling) at
    most one debounce timer is pending; it is the one whose handle
    [this.searchTimeout] holds, and the query that it will commit is
    trimmed and not empty. *)
Theorem search_box_keeps_one_timer (evs : list SearchInput.Event) :
  let w := SearchInput.run evs SearchInput.init in
  length (SearchInput.timers w) <= 1
  /\ Forall (fun t => SearchInput.searchTimeout w = Some (fst t)
                      /\ snd t <> []
                      /\ is_trimmed (snd t) = true)
       (SearchInput.timers w).
Proof.
  intros w.
  destruct (search_input_reachable_consistent evs)
    as ([Ht | (h & q & Ht & Hs & Hne & Htrim)] & _); fold w in Ht |- *.
  - rewrite Ht. split; [simpl; lia | constructor].
  - fold w in Hs. rewrite Ht. split; [simpl; lia|].
    constructor; [|constructor]. repeat split; assumption.
Qed.

(** X5.  Whatever the history, the active query of the search page
    neither starts nor ends with white space, and every call of
    [searchMovies] that has been made carries a query that is trimmed
    and not empty. *)
Theorem search_box_sends_trimmed_queries (evs : list SearchInput.Event) :
  let w := SearchInput.run evs SearchInput.init in
  is_trimmed (SearchPage.searchQuery (SearchInput.page w)) = true
  /\ JsString.trim (SearchPage.searchQuery (SearchInput.page w))
     = SearchPage.searchQuery (SearchInput.page w)
  /\ Forall (fun r => Tmdb.query r <> []
                      /\ is_trimmed (Tmdb.query r) = true
                      /\ JsString.trim (Tmdb.query r) = Tmdb.query r)
       (SearchPage.sent (SearchInput.page w)).
Proof.
  intros w.
  destruct (search_input_reachable_consistent evs) as (_ & Hq & Hsent).
  fold w in Hq, Hsent.
  split; [exact Hq|]. split; [apply is_trimmed_trim, Hq|].
  eapply Forall_impl; [exact Hsent|].
  intros r [Hne Htrim]. repeat split; try assumption.
  apply is_trimmed_trim, Htrim.
Qed.

(** X6.  After an edit of the search box, whatever came before, only
    that edit counts.  If the text is blank the search is cleared at
    once and no timer is pending.  Otherwise exactly one timer is
    pending, for the trimmed text; when it fires, the trimmed text is
    the active query and no timer is left. *)
Theorem search_box_commits_last_input
  (evs : list SearchInput.Event) (text : list N) :
  let w := SearchInput.run (evs ++ [SearchInput.Input text]) SearchInput.init in
  (JsString.trim text = [] ->
   SearchInput.timers w = []
   /\ SearchPage.searchQuery (SearchInput.page w) = []
   /\ SearchPage.grid (SearchInput.page w) = None
   /\ SearchInput.value w = [])
  /\ (JsString.trim text <> [] ->
      (exists handle,
          SearchInput.timers w = [(handle, JsString.trim text)]
          /\ SearchInput.searchTimeout w = Some handle)
      /\ SearchInput.value w = text
      /\ SearchInput.page w
         = SearchInput.page (SearchInput.run evs SearchInput.init)
      /\ SearchInput.timers
           (SearchInput.step (SearchInput.Timeout 0) w) = []
      /\ SearchPage.searchQuery
           (SearchInput.page (SearchInput.step (SearchInput.Timeout 0) w))
         = JsString.trim text).
Proof.
  intros w. unfold w, SearchInput.run. rewrite foldl_app. cbn [foldl].
  fold (SearchInput.run evs SearchInput.init).
  cbn [SearchInput.step].
  rewrite (search_input_spec text _ (search_input_reachable_consistent evs)).
  split.
  - intros ->. repeat split.
  - intros Hne. destruct (JsString.trim text) as [|c t] eqn:E;
      [contradiction|].
    split; [eexists; split; reflexivity|].
    repeat split.
    cbn. apply search_commit_query.
Qed.

Lemma search_box_commits_last_input_witness :
  SearchPage.searchQuery
    (SearchInput.page
       (SearchInput.step (SearchInput.Timeout 0)
          (SearchInput.run
             ([SearchInput.Input (JsString.lit "d");
               SearchInput.Input (JsString.lit "du")]
              ++ [SearchInput.Input (JsString.lit " dune ")])
             SearchInput.init)))
  = JsString.trim (JsString.lit " dune ")
  /\ SearchInput.timers
       (SearchInput.run
          ([SearchInput.Input (JsString.lit "dune")]
           ++ [SearchInput.Input (JsString.lit "  ")])
          SearchInput.init)
     = [].
Proof.
  assert (JsString.trim (JsString.lit " dune ") <> []) as H1
    by (vm_compute; discriminate).
  assert (JsString.trim (JsString.lit "  ") = []) as H2
    by (vm_compute; reflexivity).
  pose proof (search_box_commits_last_input
                [SearchInput.Input (JsString.lit "d");
                 SearchInput.Input (JsString.lit "du")]
                (JsString.lit " dune ")) as H.
  cbv zeta in H. destruct H as [_ H].
  destruct (H H1) as (_ & _ & _ & _ & Hq).
  pose proof (search_box_commits_last_input
                [SearchInput.Input (JsString.lit "dune")] (JsString.lit "  "))
    as G.
  cbv zeta in G. destruct G as [G _].
  destruct (G H2) as (Ht & _).
  split; [exact Hq | exact Ht].
Defined.



(** ** Genres *)

Lemma table_of_snoc (l : list Genres.Genre) (g : Genres.Genre) :
  Genres.table_of (l ++ [g])
  = <[Genres.id g := Genres.name g]> (Genres.table_of l).
Proof. unfold Genres.table_of. rewrite foldl_app. reflexivity. Qed.

Lemma table_of_lookup (l : list Genres.Genre) (i : N) :
  Genres.table_of l !! i
  = Genres.name <$> last (filter (fun g => Genres.id g = i) l).
Proof.
  induction l as [|g l IH] using rev_ind; [reflexivity|].
  rewrite table_of_snoc, filter_app, lookup_insert.
  destruct (decide (Genres.id g = i)) as [Hi | Hi].
  - rewrite filter_cons_True by exact Hi. rewrite filter_nil, last_snoc.
    reflexivity.
  - rewrite filter_cons_False by exact Hi. rewrite filter_nil, app_nil_r.
    exact IH.
Qed.

(** X8.  The table that [loadGenres] builds maps an id to the name of
    the last entry of the list that has this id; an id that the list
    does not have is not in the table.  When the call fails the table
    is left as it was (empty, on a new page). *)
Theorem genre_table_last_entry_wins
  (l : list Genres.Genre) (i : N) (genres : gmap N (list N)) :
  Genres.loadGenres (Some l) genres !! i
  = Genres.name <$> last (filter (fun g => Genres.id g = i) l)
  /\ (Genres.loadGenres (Some l) genres !! i = None
      <-> Forall (fun g => Genres.id g <> i) l)
  /\ (forall before g after,
         l = before ++ g :: after ->
         Genres.id g = i ->
         Forall (fun g' => Genres.id g' <> i) after ->
         Genres.loadGenres (Some l) genres !! i = Some (Genres.name g))
  /\ Genres.loadGenres None genres = genres.
Proof.
  cbn [Genres.loadGenres]. rewrite table_of_lookup.
  split; [reflexivity|]. split; [|split; [|reflexivity]].
  - rewrite fmap_None, last_None. split.
    + intros Hnil. apply Forall_forall. intros g Hg Hi.
      assert (g ∈ filter (fun g => Genres.id g = i) l) as Hin
        by (apply list_elem_of_filter; split; assumption).
      rewrite Hnil in Hin. inversion Hin.
    + intros Hall. induction Hall as [|g l' Hg _ IH]; [reflexivity|].
      rewrite filter_cons_False by exact Hg. exact IH.
  - intros before g after -> Hi Hafter.
    rewrite filter_app, filter_cons_True by exact Hi.
    assert (filter (fun g' => Genres.id g' = i) after = []) as ->.
    { induction Hafter as [|g' l' Hg _ IH]; [reflexivity|].
      rewrite filter_cons_False by exact Hg. exact IH. }
    rewrite last_snoc. reflexivity.
Qed.

Lemma genre_table_last_entry_wins_witness :
  Genres.loadGenres
    (Some [Genres.mkGenre 28 (JsString.lit "Action");
           Genres.mkGenre 18 (JsString.lit "Drama");
           Genres.mkGenre 28 (JsString.lit "Adventure")]) ∅ !! 28%N
  = Some (JsString.lit "Adventure").
Proof.
  pose proof (genre_table_last_entry_wins
                [Genres.mkGenre 28 (JsString.lit "Action");
                 Genres.mkGenre 18 (JsString.lit "Drama");
                 Genres.mkGenre 28 (JsString.lit "Adventure")] 28%N ∅)
    as (_ & _ & H & _).
  apply (H [Genres.mkGenre 28 (JsString.lit "Action");
            Genres.mkGenre 18 (JsString.lit "Drama")]
           (Genres.mkGenre 28 (JsString.lit "Adventure")) []);
    [reflexivity | reflexivity | constructor].
Defined.

Lemma join_not_empty (sep x : list N) (l : list (list N)) :
  x <> [] -> Genres.join sep (x :: l) <> [].
Proof.
  intros Hx. destruct x as [|c x]; [contradiction|].
  destruct l; discriminate.
Qed.

Lemma names_not_empty (genres : gmap N (list N)) (ids : list N) :
  Forall (fun n => n <> []) (Genres.names genres ids).
Proof.
  unfold Genres.names. apply Forall_forall. intros n Hn.
  apply list_elem_of_filter in Hn as [Hn _]. exact Hn.
Qed.

(** X9.  The genres of a card are the names, joined by a comma and a
    space, of the ids of the movie that the table knows with a name
    that is not empty, in the order of the ids; when there is no such
    id (no ids, [null], or a table that did not load) the text is
    "Unknown".  [MovieCard.mapGenres] and the cards of the two feed
    controllers compute the same text. *)
Theorem card_genres_are_the_known_names
  (genres : gmap N (list N)) (genre_ids : jsopt (list N)) (ids : list N)
  (n : list N) :
  Genres.mapGenres genres genre_ids
  = Genres.createMovieCard_genres genres genre_ids
  /\ (n ∈ Genres.names genres ids
      <-> n <> [] /\ exists id, id ∈ ids /\ genres !! id = Some n)
  /\ (Genres.names genres ids = [] ->
      Genres.createMovieCard_genres genres (JsVal ids)
      = JsString.lit "Unknown")
  /\ (Genres.names genres ids <> [] ->
      Genres.createMovieCard_genres genres (JsVal ids)
      = Genres.join (JsString.lit ", ") (Genres.names genres ids)
      /\ Genres.createMovieCard_genres genres (JsVal ids) <> [])
  /\ Genres.createMovieCard_genres ∅ genre_ids = JsString.lit "Unknown"
  /\ Genres.createMovieCard_genres genres JsNull = JsString.lit "Unknown"
  /\ Genres.createMovieCard_genres genres JsUndefined = JsString.lit "Unknown".
Proof.
  split; [destruct genre_ids as [| |[|id l]]; reflexivity|].
  split.
  { unfold Genres.names. rewrite list_elem_of_filter, list_elem_of_omap.
    split.
    - intros [Hn (id & Hid & Hl)]. split; [exact Hn | exists id; done].
    - intros [Hn (id & Hid & Hl)]. split; [exact Hn | exists id; done]. }
  split; [intros Hnil; cbn; rewrite Hnil; reflexivity|].
  split.
  { intros Hne. pose proof (names_not_empty genres ids) as Hall.
    cbn [Genres.createMovieCard_genres].
    destruct (Genres.names genres ids) as [|x l]; [contradiction|].
    inversion Hall as [|? ? Hx _]; subst.
    pose proof (join_not_empty (JsString.lit ", ") x l Hx) as Hj.
    unfold Genres.or_unknown.
    destruct (Genres.join (JsString.lit ", ") (x :: l));
      [contradiction | split; [reflexivity | discriminate]]. }
  split; [|split; reflexivity].
  destruct genre_ids as [| |l]; try reflexivity.
  cbn [Genres.createMovieCard_genres].
  assert (Genres.names ∅ l = []) as ->; [|reflexivity].
  unfold Genres.names. induction l as [|id l IH]; [reflexivity|].
  cbn [omap list_omap]. rewrite lookup_empty. exact IH.
Qed.

Lemma card_genres_are_the_known_names_witness :
  Genres.createMovieCard_genres
    (Genres.table_of [Genres.mkGenre 18 (JsString.lit "Drama");
                      Genres.mkGenre 53 (JsString.lit "Thriller")])
    (JsVal [18; 99; 53]%N)
  = JsString.lit "Drama, Thriller"
  /\ Genres.createMovieCard_genres
       (Genres.table_of [Genres.mkGenre 18 (JsString.lit "Drama")])
       (JsVal [99]%N)
     = JsString.lit "Unknown".
Proof.
  assert (Genres.names
            (Genres.table_of [Genres.mkGenre 18 (JsString.lit "Drama");
                              Genres.mkGenre 53 (JsString.lit "Thriller")])
            [18; 99; 53]%N <> []) as H1 by (vm_compute; discriminate).
  assert (Genres.names
            (Genres.table_of [Genres.mkGenre 18 (JsString.lit "Drama")])
            [99]%N = []) as H2 by (vm_compute; reflexivity).
  destruct (card_genres_are_the_known_names
              (Genres.table_of [Genres.mkGenre 18 (JsString.lit "Drama");
                                Genres.mkGenre 53 (JsString.lit "Thriller")])
              JsNull [18; 99; 53]%N []) as (_ & _ & _ & G1 & _).
  destruct (card_genres_are_the_known_names
              (Genres.table_of [Genres.mkGenre 18 (JsString.lit "Drama")])
              JsNull [99]%N []) as (_ & _ & G2 & _).
  split.
  - rewrite (proj1 (G1 H1)). vm_compute. reflexivity.
  - exact (G2 H2).
Defined.

(** ** Ratings of the two kinds of card *)

Lemma SFeqb_self (s : spec_float) :
  SFeqb s s = match s with S754_nan => false | _ => true end.
Proof.
  destruct s as [b|b| |b m e]; unfold SFeqb; simpl;
    try (destruct b; reflexivity); try reflexivity.
  destruct b; rewrite Z.compare_refl;
    change (PosDef.Pos.compare_cont Eq m m) with (Pos.compare m m);
    rewrite Pos.compare_refl; reflexivity.
Qed.

Lemma is_nan_spec (x : float) :
  PrimFloat.is_nan x
  = match Prim2SF x with S754_nan => true | _ => false end.
Proof.
  unfold PrimFloat.is_nan. rewrite FloatAxioms.eqb_spec, SFeqb_self.
  destruct (Prim2SF x); reflexivity.
Qed.

(** X10.  The rating of a [MovieCard] and the rating of a card of the
    two feed controllers are the same text for every score but zero:
    for [0] and [-0] the [MovieCard] shows "0.0" and the feed card
    "N/A".  For [null], [undefined] and [NaN] both show "N/A", and for
    every other score both show [toFixed(1)] of the score. *)
Theorem ratings_differ_only_at_zero
  (toString : float -> string) (vote_average : jsopt float) (x : float) :
  (formatRating toString (JsVal x) = createMovieCard_rating toString (JsVal x)
   <-> is_zero x = false)
  /\ (is_zero x = true ->
      formatRating toString (JsVal x) = "0.0"%string
      /\ createMovieCard_rating toString (JsVal x) = "N/A"%string)
  /\ (is_zero x = false -> PrimFloat.is_nan x = false ->
      formatRating toString (JsVal x) = Number.toFixed1 toString x
      /\ createMovieCard_rating toString (JsVal x)
         = Number.toFixed1 toString x)
  /\ (PrimFloat.is_nan x = true ->
      formatRating toString (JsVal x) = "N/A"%string
      /\ createMovieCard_rating toString (JsVal x) = "N/A"%string)
  /\ (vote_average = JsNull \/ vote_average = JsUndefined ->
      formatRating toString vote_average = "N/A"%string
      /\ createMovieCard_rating toString vote_average = "N/A"%string).
Proof.
  unfold formatRating, createMovieCard_rating, is_zero, Number.falsy,
    Number.parseFloat.
  rewrite is_nan_spec.
  split; [|split; [|split; [|split]]].
  - destruct (Prim2SF x) as [b|b| |b m e] eqn:Hx.
    + unfold Number.toFixed1. change (Prim2SF 0) with (S754_zero false).
      split; [discriminate | discriminate].
    + split; [reflexivity | intros _; reflexivity].
    + split; [reflexivity | intros _; reflexivity].
    + split; [reflexivity | intros _; reflexivity].
  - destruct (Prim2SF x) as [b|b| |b m e] eqn:Hx; try discriminate.
    intros _. split; reflexivity.
  - destruct (Prim2SF x) as [b|b| |b m e] eqn:Hx; try discriminate;
      intros _ _; split; reflexivity.
  - destruct (Prim2SF x) as [b|b| |b m e] eqn:Hx; try discriminate.
    intros _. split; reflexivity.
  - intros [-> | ->]; split; reflexivity.
Qed.

Lemma ratings_differ_only_at_zero_witness :
  (formatRating (fun _ => "?"%string) (JsVal (-0)%float) = "0.0"%string
   /\ createMovieCard_rating (fun _ => "?"%string) (JsVal (-0)%float)
      = "N/A"%string)
  /\ (formatRating (fun _ => "?"%string) (JsVal 8.25%float)
      = Number.toFixed1 (fun _ => "?"%string) 8.25%float
      /\ createMovieCard_rating (fun _ => "?"%string) (JsVal 8.25%float)
         = Number.toFixed1 (fun _ => "?"%string) 8.25%float)
  /\ (formatRating (fun _ => "?"%string) (JsVal nan) = "N/A"%string
      /\ createMovieCard_rating (fun _ => "?"%string) (JsVal nan)
         = "N/A"%string)
  /\ (formatRating (fun _ => "?"%string) JsNull = "N/A"%string
      /\ createMovieCard_rating (fun _ => "?"%string) JsNull = "N/A"%string).
Proof.
  assert (is_zero (-0)%float = true) as Hz by (vm_compute; reflexivity).
  assert (is_zero 8.25%float = false) as Hn by (vm_compute; reflexivity).
  assert (PrimFloat.is_nan 8.25%float = false) as Hnan
    by (vm_compute; reflexivity).
  assert (PrimFloat.is_nan nan = true) as Hisnan by (vm_compute; reflexivity).
  destruct (ratings_differ_only_at_zero (fun _ => "?"%string) JsNull
              (-0)%float) as (_ & H1 & _ & _ & H4).
  destruct (ratings_differ_only_at_zero (fun _ => "?"%string) JsNull
              8.25%float) as (_ & _ & H2 & _).
  destruct (ratings_differ_only_at_zero (fun _ => "?"%string) JsNull
              nan) as (_ & _ & _ & H3 & _).
  split; [exact (H1 Hz)|]. split; [exact (H2 Hn Hnan)|].
  split; [exact (H3 Hisnan) | exact (H4 (or_introl eq_refl))].
Defined.

(** ** More on escaping *)

Lemma entity_cases (c : N) :
  (html_special c = true
   /\ exists a rest, Html.entity c = Html.amp :: a :: rest
                     /\ a <> Html.amp
                     /\ forall d, html_special d = true ->
                                  (exists rest', Html.entity d
                                                 = Html.amp :: a :: rest') ->
                                  d = c)
  \/ (html_special c = false /\ Html.entity c = [c]).
Proof.
  unfold html_special, Html.markup, Html.entity.
  destruct (N.eqb_spec c Html.amp) as [->|Hamp];
    [left|destruct (N.eqb_spec c Html.lt) as [->|Hlt];
          [left|destruct (N.eqb_spec c Html.gt) as [->|Hgt];
                [left|destruct (N.eqb_spec c Html.quot) as [->|Hquot];
                      [left|destruct (N.eqb_spec c Html.apos) as [->|Hapos];
                            [left|right; split; reflexivity]]]]];
    (split; [reflexivity|]);
    eexists _, _; (split; [reflexivity|]); (split; [discriminate|]);
    intros d _ [rest' Hd]; revert Hd;
    (destruct (N.eqb_spec d Html.amp) as [->|?]; [|
     destruct (N.eqb_spec d Html.lt) as [->|?]; [|
     destruct (N.eqb_spec d Html.gt) as [->|?]; [|
     destruct (N.eqb_spec d Html.quot) as [->|?]; [|
     destruct (N.eqb_spec d Html.apos) as [->|?]]]]]);
    intros Hd; try reflexivity; try discriminate Hd;
    injection Hd as Hd _; unfold Html.amp in *; congruence.
Qed.

Lemma entity_length (c : N) :
  1 <= length (Html.entity c) <= 6
  /\ (html_special c = true -> 4 <= length (Html.entity c)).
Proof.
  unfold html_special, Html.markup, Html.entity.
  destruct (c =? Html.amp)%N; [cbn; split; [lia|intros _; lia]|].
  destruct (c =? Html.lt)%N; [cbn; split; [lia|intros _; lia]|].
  destruct (c =? Html.gt)%N; [cbn; split; [lia|intros _; lia]|].
  destruct (c =? Html.quot)%N; [cbn; split; [lia|intros _; lia]|].
  destruct (c =? Html.apos)%N; [cbn; split; [lia|intros _; lia]|].
  cbn. split; [lia | discriminate].
Qed.

Lemma escaped_length (s : list N) :
  length s <= length (flat_map Html.entity s) <= 6 * length s.
Proof.
  induction s as [|c s IH]; [cbn; lia|].
  cbn [flat_map]. rewrite length_app. cbn [length].
  pose proof (entity_length c) as [Hc _]. lia.
Qed.

Lemma entities_injective (s t : list N) :
  flat_map Html.entity s = flat_map Html.entity t -> s = t.
Proof.
  revert t. induction s as [|c s IH]; intros [|d t] H.
  - reflexivity.
  - cbn [flat_map] in H. pose proof (entity_length d) as [Hd _].
    apply (f_equal length) in H. rewrite length_app in H. cbn in H. lia.
  - cbn [flat_map] in H. pose proof (entity_length c) as [Hc _].
    apply (f_equal length) in H. rewrite length_app in H. cbn in H. lia.
  - cbn [flat_map] in H.
    destruct (entity_cases c) as [[Hc (a & rest & Ec & Ha & Huniq)] | [Hc Ec]];
      destruct (entity_cases d)
        as [[Hd (a' & rest' & Ed & Ha' & Huniq')] | [Hd Ed]].
    + rewrite Ec, Ed in H. injection H as Haa H.
      assert (d = c) as ->.
      { apply Huniq; [exact Hd|]. exists rest'. rewrite Ed, Haa.
        reflexivity. }
      rewrite Ec in Ed. injection Ed as _ Hrest. subst rest'.
      apply app_inv_head in H. f_equal. apply IH. exact H.
    + rewrite Ec, Ed in H. injection H as Hamp _. subst d.
      discriminate Hd.
    + rewrite Ec, Ed in H. injection H as Hamp _. subst c.
      discriminate Hc.
    + rewrite Ec, Ed in H. injection H as -> H. f_equal. apply IH. exact H.
Qed.

Lemma entities_fixed (s : list N) :
  flat_map Html.entity s = s <-> Forall (fun c => html_special c = false) s.
Proof.
  split.
  - induction s as [|c s IH]; intros H; [constructor|].
    cbn [flat_map] in H.
    destruct (entity_cases c) as [[Hc _] | [Hc Ec]].
    + pose proof (proj2 (entity_length c) Hc) as Hlen.
      pose proof (escaped_length s) as Hs.
      apply (f_equal length) in H. rewrite length_app in H. cbn in H. lia.
    + rewrite Ec in H. injection H as H. constructor; [exact Hc | auto].
  - induction 1 as [|c s Hc _ IH]; [reflexivity|].
    cbn [flat_map].
    destruct (entity_cases c) as [[Hc' _] | [_ Ec]]; [congruence|].
    rewrite Ec, IH. reflexivity.
Qed.

Lemma entities_special (s : list N) :
  Forall (fun c => html_special c = false) (flat_map Html.entity s)
  <-> Forall (fun c => html_special c = false) s.
Proof.
  split.
  - induction s as [|c s IH]; intros H; [constructor|].
    cbn [flat_map] in H. apply Forall_app in H as [Hc Hs].
    constructor; [|auto].
    destruct (entity_cases c) as [[_ (a & rest & Ec & _)] | [Hc' Ec]].
    + rewrite Ec in Hc. inversion Hc as [|? ? Hamp _]. discriminate Hamp.
    + exact Hc'.
  - intros H. rewrite (proj2 (entities_fixed s) H). exact H.
Qed.

(** X11.  [escapeHtml] loses nothing: two strings with the same escaped
    text are the same string.  It works character by character (the
    escaped text of a concatenation is the concatenation of the escaped
    texts), makes a string longer by at most a factor of six and never
    shorter, and returns its argument unchanged exactly when the
    argument has none of the five characters; escaping a second time
    changes the text again unless the first time changed nothing. *)
Theorem escapeHtml_is_injective (s t : list N) :
  (escapeHtml (JsVal s) = escapeHtml (JsVal t) -> s = t)
  /\ escapeHtml (JsVal (s ++ t)) = escapeHtml (JsVal s) ++ escapeHtml (JsVal t)
  /\ length s <= length (escapeHtml (JsVal s)) <= 6 * length s
  /\ (escapeHtml (JsVal s) = s
      <-> Forall (fun c => html_special c = false) s)
  /\ (escapeHtml (JsVal (escapeHtml (JsVal s))) = escapeHtml (JsVal s)
      <-> escapeHtml (JsVal s) = s).
Proof.
  rewrite !escapeHtml_flat_map.
  split; [apply entities_injective|].
  split; [apply flat_map_app|].
  split; [apply escaped_length|].
  split; [apply entities_fixed|].
  rewrite !entities_fixed. apply entities_special.
Qed.

Lemma escapeHtml_is_injective_witness :
  JsString.lit "a<b" = JsString.lit "a<b".
Proof.
  assert (escapeHtml (JsVal (JsString.lit "a<b"))
          = escapeHtml (JsVal (JsString.lit "a<b"))) as H
    by (vm_compute; reflexivity).
  exact (proj1 (escapeHtml_is_injective (JsString.lit "a<b")
                  (JsString.lit "a<b")) H).
Defined.

(** ** The two truncations side by side *)

(** X12.  [MovieCard.truncateOverview] and [truncateText] return the
    same text exactly when the text is not cut, or the cut neither
    starts nor ends with white space; when the cut does, the result of
    [truncateOverview] is the shorter one. *)
Theorem truncations_agree_on_trimmed_cut (s : list N) (n : nat) :
  (truncateOverview (JsVal s) n = truncateText (JsVal s) n
   <-> length s <= n \/ is_trimmed (take n s) = true)
  /\ (n < length s -> is_trimmed (take n s) = false ->
      length (truncateOverview (JsVal s) n)
      < length (truncateText (JsVal s) n)).
Proof.
  destruct s as [|c s].
  { split; [split; [intros _; left; cbn; lia | reflexivity]|].
    cbn. lia. }
  unfold truncateOverview, truncateText, JsString.substring0.
  destruct (Nat.ltb_spec n (length (c :: s))) as [Hlt | Hle];
    destruct (Nat.leb_spec (length (c :: s)) n) as [Hle' | Hlt']; try lia.
  - split.
    + split.
      * intros H. apply app_inv_tail in H. right. rewrite <- H.
        apply trim_is_trimmed.
      * intros [Hlen | Htrim]; [lia|].
        rewrite (is_trimmed_trim _ Htrim). reflexivity.
    + intros _ Hnot. rewrite !length_app.
      destruct (trim_split (take n (c :: s))) as (l & r & Hs & Hl & Hr).
      assert (length (take n (c :: s))
              = length l + length (JsString.trim (take n (c :: s)))
                + length r) as Hlen.
      { rewrite Hs at 1. rewrite !length_app. lia. }
      destruct l as [|a l]; [destruct r as [|b r]|].
      * rewrite app_nil_l, app_nil_r in Hs.
        pose proof (trim_is_trimmed (take n (c :: s))) as Ht.
        rewrite <- Hs in Ht. congruence.
      * cbn [length] in Hlen. lia.
      * cbn [length] in Hlen. lia.
  - split; [split; [intros _; left; exact Hle | reflexivity]|].
    intros Hlt. lia.
Qed.

Lemma truncations_agree_on_trimmed_cut_witness :
  length (truncateOverview (JsVal (JsString.lit "ab cd")) 3)
  < length (truncateText (JsVal (JsString.lit "ab cd")) 3).
Proof.
  assert (3 < length (JsString.lit "ab cd")) as Hlen by (vm_compute; lia).
  assert (is_trimmed (take 3 (JsString.lit "ab cd")) = false) as Hcut
    by (vm_compute; reflexivity).
  exact (proj2 (truncations_agree_on_trimmed_cut (JsString.lit "ab cd") 3)
           Hlen Hcut).
Defined.

(** ** What the feeds show *)

Lemma last_cons_default (p d : nat) (l : list nat) :
  List.last (p :: l) d = List.last l p.
Proof.
  revert p d. induction l as [|q l IH]; intros p d; [reflexivity|].
  change (List.last (p :: q :: l) d) with (List.last (q :: l) d).
  rewrite IH. symmetry. apply IH.
Qed.

Lemma steps_by_one_snoc (from c : nat) (l : list nat) :
  steps_by_one from (l ++ [c])
  = steps_by_one from l
    && ((c =? List.last l from)%nat || (c =? S (List.last l from))%nat).
Proof.
  revert from. induction l as [|p l IH]; intros from.
  - cbn. rewrite andb_true_r. reflexivity.
  - cbn [app steps_by_one]. rewrite IH, last_cons_default, andb_assoc.
    reflexivity.
Qed.

Lemma in_order_snoc (c : nat) (l : list nat) :
  l <> [] ->
  in_order (l ++ [c])
  = in_order l
    && ((c =? List.last l 0)%nat || (c =? S (List.last l 0))%nat).
Proof.
  destruct l as [|p l]; [contradiction|]. intros _.
  cbn [app in_order]. rewrite steps_by_one_snoc, last_cons_default, andb_assoc.
  reflexivity.
Qed.

Lemma in_order_prefix (c : nat) (l : list nat) :
  in_order (l ++ [c]) = true -> in_order l = true.
Proof.
  destruct l as [|p l]; [reflexivity|].
  rewrite in_order_snoc by discriminate.
  intros H. apply andb_prop in H as [H _]. exact H.
Qed.

Lemma filter_cards (l : list Tmdb.Movie) :
  List.filter is_card (map Card l) = map Card l
  /\ List.filter is_error (map Card l) = [].
Proof.
  induction l as [|m l [IH1 IH2]]; [split; reflexivity|].
  cbn. rewrite IH1, IH2. split; reflexivity.
Qed.

Lemma pending_is_single {A : Type} (l : list A) (i : nat) (r : A) (b : bool) :
  length l = (if b then 1 else 0) ->
  l !! i = Some r ->
  b = true /\ l = [r] /\ i = 0.
Proof.
  intros Hlen Hi. destruct l as [|r0 [|r1 l]]; destruct b; cbn in Hlen;
    try lia; try discriminate.
  destruct i as [|i]; [|discriminate].
  injection Hi as ->. repeat split.
Qed.

Lemma browse_load_feed (w : NowPlayingPage.World) :
  browse_feed w -> browse_feed (Js.exec NowPlayingPage.loadMovies w).
Proof.
  intros (Hlog & Hq & Hm & Hg & He & Hc & Ho).
  pose proof (browse_load_spec w) as H. cbv zeta in H.
  destruct (NowPlayingPage.isLoading w || negb (NowPlayingPage.hasMorePages w)).
  { rewrite H. repeat split; assumption. }
  destruct H as (_ & Hin & Hst & Hcp & _ & Hms & Hgr & Han).
  unfold browse_feed. rewrite Hin, Hst, Hcp, Hms, Hgr, Han.
  repeat split; try assumption.
  - rewrite app_assoc, Hlog. reflexivity.
  - apply Forall_app. split; [exact Hq | repeat constructor].
  - rewrite map_app. cbn [map Tmdb.number].
    rewrite in_order_snoc by (intros E; apply app_eq_nil in E as [_ E];
                              discriminate E).
    rewrite Ho, last_last, Nat.eqb_refl. reflexivity.
Qed.

Lemma browse_step_feed (ev : NowPlayingPage.Event) (w : NowPlayingPage.World) :
  browse_consistent w -> browse_feed w ->
  browse_feed (NowPlayingPage.step ev w).
Proof.
  intros (Hfl & Hcur) Hfeed. destruct ev as [| |i o]; unfold NowPlayingPage.step.
  - apply browse_load_feed. exact Hfeed.
  - rewrite browse_intersect_spec. apply browse_load_feed. exact Hfeed.
  - destruct (NowPlayingPage.in_flight w !! i) as [r|] eqn:Hi; [|exact Hfeed].
    destruct (pending_is_single _ _ _ _ Hfl Hi) as (Hil & Hone & ->).
    destruct Hfeed as (Hlog & Hq & Hm & Hg & He & Hc & Ho).
    rewrite Hone in Hcur. inversion Hcur as [|? ? Hnum _]; subst.
    assert (Tmdb.query r = []) as Hqr.
    { rewrite <- Hlog, Hone in Hq. apply Forall_app in Hq as [_ Hq].
      inversion Hq; assumption. }
    pose proof (browse_resume_frame o (NowPlayingPage.settled 0 r o w)) as Hf.
    cbv zeta in Hf. destruct Hf as (_ & Hin' & Hst' & Han').
    assert (in_order
              (map Tmdb.number (NowPlayingPage.sent w)
                 ++ [S (NowPlayingPage.currentPage w)]) = true) as Hnext.
    { apply in_order_prefix in Ho.
      rewrite in_order_snoc, Ho.
      - rewrite <- Hlog, Hone, map_app. cbn [map]. rewrite last_last.
        rewrite Hnum, Nat.eqb_refl, orb_true_r. reflexivity.
      - rewrite <- Hlog, Hone, map_app. intros E.
        apply app_eq_nil in E as [_ E]. discriminate E. }
    unfold browse_feed. rewrite Hin', Hst', Han'. browse_fields.
    rewrite Hone. cbn [delete list_delete].
    rewrite !map_app, app_nil_r. cbn [map fst].
    unfold pages_with_items, Tmdb.items_for.
    rewrite !List.filter_app, flat_map_app, !length_app.
    cbn [List.filter flat_map is_rejected has_items snd length].
    rewrite Hqr, bool_decide_eq_true_2 by reflexivity.
    rewrite app_nil_r.
    split; [rewrite <- Hlog, Hone; reflexivity|].
    split; [exact Hq|].
    destruct o as [data|].
    + pose proof (browse_resume_fulfilled data
                    (NowPlayingPage.settled 0 r (Tmdb.Fulfilled data) w)) as Hr.
      cbv zeta in Hr. destruct Hr as (Hms & Hgr & Hrest). browse_fields.
      rewrite Hms, Hgr, !List.filter_app, map_app, length_app.
      destruct (filter_cards (Tmdb.results data)) as [-> ->].
      rewrite Hg, He, Hm. unfold is_rejected, has_items. cbn [snd length].
      split; [reflexivity|]. split; [reflexivity|]. split; [lia|].
      destruct (Tmdb.results data) as [|m l]; destruct Hrest as [-> _];
        cbn [length].
      * split; [unfold pages_with_items, has_items in Hc; lia | exact Ho].
      * split; [unfold pages_with_items, has_items in Hc; lia | exact Hnext].
    + pose proof (browse_resume_rejected
                    (NowPlayingPage.settled 0 r Tmdb.Rejected w)) as Hr.
      cbv zeta in Hr. destruct Hr as (Hms & Hcp & _ & Hgr). browse_fields.
      rewrite Hms, Hcp, Hgr, !List.filter_app, length_app.
      cbn [List.filter is_card is_error length].
      rewrite !app_nil_r, Hg, He, Hm. unfold is_rejected, has_items.
      cbn [snd length].
      split; [reflexivity|]. split; [reflexivity|]. split; [lia|].
      split; [unfold pages_with_items, has_items in Hc; lia | exact Ho].
Qed.

Lemma browse_reachable_feed (evs : list NowPlayingPage.Event) :
  browse_feed (NowPlayingPage.run evs NowPlayingPage.init).
Proof.
  induction evs as [|ev evs IH] using rev_ind.
  - repeat split; try reflexivity. constructor.
  - unfold NowPlayingPage.run. rewrite foldl_app. cbn [foldl].
    apply browse_step_feed; [apply browse_reachable_consistent | exact IH].
Qed.

(** X13.  After any history of the browse feed (calls of [loadMovies],
    callbacks of the observer, answers): the calls have been answered
    in the order in which they were made and at most the last one is
    pending; the list of movies is the items of the pages that arrived,
    in the order of arrival; the grid holds one card for each movie of
    the list, in that order, and one error message for each call that
    failed; the cursor is one more than the number of pages that
    arrived with items; and the pages are asked for in order: the first
    call is for page 1 and each later call is for the page of the call
    before it or for the next page. *)
Theorem browse_feed_shows_what_arrived (evs : list NowPlayingPage.Event) :
  let w := NowPlayingPage.run evs NowPlayingPage.init in
  map fst (NowPlayingPage.answered w) ++ NowPlayingPage.in_flight w
  = NowPlayingPage.sent w
  /\ length (NowPlayingPage.in_flight w) <= 1
  /\ NowPlayingPage.movies w = Tmdb.items_for [] (NowPlayingPage.answered w)
  /\ List.filter is_card (NowPlayingPage.grid w)
     = map Card (NowPlayingPage.movies w)
  /\ length (List.filter is_error (NowPlayingPage.grid w))
     = length (List.filter is_rejected (NowPlayingPage.answered w))
  /\ NowPlayingPage.currentPage w
     = S (pages_with_items (NowPlayingPage.answered w))
  /\ in_order (map Tmdb.number (NowPlayingPage.sent w)) = true
  /\ Forall (fun r => Tmdb.number r <= NowPlayingPage.currentPage w)
       (NowPlayingPage.sent w).
Proof.
  intros w.
  pose proof (browse_reachable_feed evs) as (Hlog & Hq & Hm & Hg & He & Hc & Ho).
  pose proof (browse_reachable_consistent evs) as (Hfl & _).
  fold w in Hlog, Hq, Hm, Hg, He, Hc, Ho, Hfl.
  repeat split; try assumption.
  - rewrite Hfl. destruct (NowPlayingPage.isLoading w); lia.
  - apply in_order_prefix in Ho. exact Ho.
  - clear - Ho. revert Ho.
    generalize (NowPlayingPage.currentPage w) as c.
    induction (NowPlayingPage.sent w) as [|r l IH] using rev_ind;
      intros c Ho; [constructor|].
    rewrite map_app in Ho. cbn [map] in Ho.
    pose proof (in_order_prefix _ _ Ho) as Hl.
    rewrite in_order_snoc in Ho
      by (intros E; apply app_eq_nil in E as [_ E]; discriminate E).
    rewrite Hl, last_last in Ho. cbn [andb] in Ho.
    apply orb_prop in Ho.
    assert (Tmdb.number r <= c) as Hr
      by (destruct Ho as [Ho | Ho]; apply Nat.eqb_eq in Ho; lia).
    apply Forall_app. split; [|repeat constructor; exact Hr].
    eapply Forall_impl; [apply IH; exact Hl|].
    intros r' Hr'. cbn in Hr'. lia.
Qed.

(** The resumption while the search container is not in the document:
    every attempt to append to the grid raises, also the one of the
    [catch] block. *)
Lemma search_resume_detached (o : Tmdb.Outcome) (w : SearchPage.World) :
  SearchPage.grid w = None ->
  let result := SearchPage.loadSearchResults_resume o w in
  SearchPage.grid (snd result) = None
  /\ SearchPage.currentPage (snd result) = SearchPage.currentPage w
  /\ SearchPage.isLoading (snd result) = false
  /\ match o with
     | Tmdb.Rejected =>
         fst result = Js.Throw
         /\ SearchPage.searchResults (snd result) = SearchPage.searchResults w
         /\ SearchPage.hasMorePages (snd result) = SearchPage.hasMorePages w
     | Tmdb.Fulfilled data =>
         SearchPage.searchResults (snd result)
         = SearchPage.searchResults w ++ Tmdb.results data
         /\ match Tmdb.results data with
            | [] =>
                SearchPage.hasMorePages (snd result) = false
                /\ (fst result = Js.Throw <-> SearchPage.currentPage w = 1)
            | _ :: _ =>
                fst result = Js.Throw
                /\ SearchPage.hasMorePages (snd result)
                   = SearchPage.hasMorePages w
            end
     end.
Proof.
  destruct w as [cp il hm q rs g ld ob inf st an]. simpl. intros ->.
  destruct o as [[res pg tot]|]; [destruct res as [|m res]|];
    destruct ld as [d|]; unfold_search; simpl.
  all: split_ifs.
  all: rewrite ?app_nil_r; repeat split; try done.
  all: try (intros _; apply Nat.eqb_eq; assumption).
  all: try (intros Hcp; apply Nat.eqb_eq in Hcp; congruence).
Qed.






(** X15.  A page that arrives while the search container is not in the
    document (after [clearSearch], which does not cancel the call):
    its items are still pushed to the result list, but the first
    attempt to append to the grid raises a [TypeError], the [catch]
    block raises another one when it tries to show the error message,
    and [loadSearchResults] ends with an exception that nothing
    handles.  The cursor is not advanced, the flag is cleared and
    nothing is shown.  The same holds for a call that fails, and for an
    empty first page; only an empty page after the first one ends
    normally. *)
Theorem late_page_without_container_throws
  (o : Tmdb.Outcome) (w : SearchPage.World) (i : nat) (r : Tmdb.Request) :
  SearchPage.grid w = None ->
  SearchPage.in_flight w !! i = Some r ->
  let result :=
    SearchPage.loadSearchResults_resume o (SearchPage.settled i r o w) in
  SearchPage.step (SearchPage.Settle i o) w = snd result
  /\ SearchPage.grid (snd result) = None
  /\ SearchPage.currentPage (snd result) = SearchPage.currentPage w
  /\ SearchPage.isLoading (snd result) = false
  /\ match o with
     | Tmdb.Rejected =>
         fst result = Js.Throw
         /\ SearchPage.searchResults (snd result) = SearchPage.searchResults w
         /\ SearchPage.hasMorePages (snd result) = SearchPage.hasMorePages w
     | Tmdb.Fulfilled data =>
         SearchPage.searchResults (snd result)
         = SearchPage.searchResults w ++ Tmdb.results data
         /\ match Tmdb.results data with
            | [] =>
                SearchPage.hasMorePages (snd result) = false
                /\ (fst result = Js.Throw <-> SearchPage.currentPage w = 1)
            | _ :: _ =>
                fst result = Js.Throw
                /\ SearchPage.hasMorePages (snd result)
                   = SearchPage.hasMorePages w
            end
     end.
Proof.
  intros Hg Hi result.
  split; [unfold SearchPage.step; rewrite Hi; reflexivity|].
  assert (SearchPage.grid (SearchPage.settled i r o w) = None) as Hgs
    by exact Hg.
  exact (search_resume_detached o _ Hgs).
Qed.

Lemma late_page_without_container_throws_witness :
  let w := SearchPage.run
             [SearchPage.PerformSearch (JsString.lit "dune");
              SearchPage.ClearSearch] SearchPage.init in
  let page := Tmdb.mkPage [Tmdb.mkMovie 438631 (JsVal (JsString.lit "Dune"))
                             (JsVal 7.8%float) JsNull] 1 3 in
  let result :=
    SearchPage.loadSearchResults_resume (Tmdb.Fulfilled page)
      (SearchPage.settled 0 (Tmdb.mkRequest (JsString.lit "dune") 1)
         (Tmdb.Fulfilled page) w) in
  fst result = Js.Throw
  /\ SearchPage.searchResults (snd result) = Tmdb.results page
  /\ SearchPage.currentPage (snd result) = 1
  /\ SearchPage.grid (snd result) = None.
Proof.
  intros w page result.
  assert (SearchPage.grid w = None) as Hg by (vm_compute; reflexivity).
  assert (SearchPage.in_flight w !! 0
          = Some (Tmdb.mkRequest (JsString.lit "dune") 1)) as Hi
    by (vm_compute; reflexivity).
  pose proof (late_page_without_container_throws (Tmdb.Fulfilled page) w 0
                (Tmdb.mkRequest (JsString.lit "dune") 1) Hg Hi) as H.
  cbv zeta in H. destruct H as (_ & Hgrid & Hcp & _ & Hrs & Hthrow & _).
  split; [exact Hthrow|]. split; [exact Hrs|]. split; [exact Hcp | exact Hgrid].
Defined.

(** ** Debouncing and throttling *)

Lemma timer_is_single {A : Type} (l : list A) (k : nat) (x y : A) :
  l = [x] -> l !! k = Some y -> k = 0 /\ y = x.
Proof.
  intros -> Hk. destruct k as [|k]; [|discriminate].
  injection Hk as <-. split; reflexivity.
Qed.

Lemma debounce_step_consistent (Args : Type) (delay : nat)
  (ev : Debounce.Event Args) (d : Debounce.Debounced Args) :
  Debounce.consistent Args delay d ->
  Debounce.consistent Args delay (Debounce.step Args delay ev d).
Proof.
  intros (Hap & Htm & Hq & Hlen).
  destruct ev as [args|k|dt]; cbn [Debounce.step].
  - assert (clearTimeout (Debounce.timeoutId d) (Debounce.timers d) = [])
      as Hclear.
    { destruct Htm as [Hnil | (h & t0 & a & before & Ht & Hid & _)].
      - rewrite Hnil. destruct (Debounce.timeoutId d); reflexivity.
      - rewrite Ht, Hid. cbn [clearTimeout].
        rewrite filter_cons_False by (cbn; intros Hne; apply Hne; reflexivity).
        reflexivity. }
    assert (length (Debounce.applied d) <= length (Debounce.calls d)) as Hle
      by lia.
    unfold Debounce.call, Debounce.consistent.
    cbn [Debounce.timeoutId Debounce.timers Debounce.now Debounce.calls
         Debounce.applied].
    rewrite Hclear, app_nil_l.
    split; [exact Hap|]. split.
    { right. exists (Debounce.next_handle d), (Debounce.now d), args,
               (Debounce.calls d). repeat split. }
    split.
    + rewrite Forall_forall in Hq, Hap. apply Forall_forall. intros a Ha.
      destruct (Hq a Ha) as (before & after & t0 & Hlog & Hwait & Hafter).
      exists before, (after ++ [(Debounce.now d, args)]), t0.
      split; [rewrite Hlog, <- app_assoc; reflexivity|].
      split; [exact Hwait|].
      apply Forall_app. split; [exact Hafter|].
      constructor; [cbn; apply Hap; exact Ha | constructor].
    + rewrite length_app. cbn. lia.
  - unfold Debounce.timeout.
    destruct (Debounce.timers d !! k) as [[h [due args]]|] eqn:Hk;
      [|repeat split; assumption].
    destruct (Nat.leb_spec due (Debounce.now d)) as [Hdue | Hdue];
      [|repeat split; assumption].
    destruct Htm as [Hnil | (h' & t0 & a & before & Ht & Hid & Hlast)];
      [rewrite Hnil in Hk; discriminate|].
    destruct (timer_is_single _ _ _ _ Ht Hk) as [-> [= -> -> ->]].
    unfold Debounce.consistent.
    cbn [Debounce.timeoutId Debounce.timers Debounce.now Debounce.calls
         Debounce.applied].
    rewrite Ht in *. cbn [delete list_delete length] in *.
    split; [apply Forall_app; split; [exact Hap | repeat constructor]|].
    split; [left; reflexivity|].
    split.
    + apply Forall_app. split; [exact Hq|]. constructor; [|constructor].
      exists before, [], t0. cbn [fst snd].
      split; [exact Hlast|]. split; [exact Hdue | constructor].
    + rewrite length_app. cbn. lia.
  - unfold Debounce.advance, Debounce.consistent.
    cbn [Debounce.timeoutId Debounce.timers Debounce.now Debounce.calls
         Debounce.applied].
    split; [|repeat split; assumption].
    eapply Forall_impl; [exact Hap|]. cbn. intros a Ha. lia.
Qed.

Lemma debounce_reachable_consistent (Args : Type) (delay : nat)
  (evs : list (Debounce.Event Args)) :
  Debounce.consistent Args delay
    (Debounce.run Args delay evs (Debounce.debounce Args)).
Proof.
  induction evs as [|ev evs IH] using rev_ind.
  - split; [constructor|]. split; [left; reflexivity|].
    split; [constructor | cbn; lia].
  - unfold Debounce.run. rewrite foldl_app. cbn [foldl].
    apply debounce_step_consistent. exact IH.
Qed.

(** X16.  The function that [debounce(func, delay)] returns, after any
    history of calls, timers that fire and time that passes: at most
    one of its timers is pending, and it is the one of its last call;
    [func] has run at most once for each call; and each time [func]
    ran, it ran with the arguments of a call that was made at least
    [delay] before, and every call that came after that one came after
    [func] had run (no call was made while [func] was waiting). *)
Theorem debounce_waits_for_a_quiet_period (Args : Type) (delay : nat)
  (evs : list (Debounce.Event Args)) :
  let d := Debounce.run Args delay evs (Debounce.debounce Args) in
  length (Debounce.timers d) <= 1
  /\ Forall (fun t => Some (fst t) = Debounce.timeoutId d
                      /\ last (Debounce.calls d)
                         = Some (fst (snd t) - delay, snd (snd t))
                      /\ delay <= fst (snd t))
       (Debounce.timers d)
  /\ length (Debounce.applied d) + length (Debounce.timers d)
     <= length (Debounce.calls d)
  /\ Forall (fun a =>
               exists before after t0,
                 Debounce.calls d = before ++ (t0, snd a) :: after
                 /\ t0 + delay <= fst a
                 /\ Forall (fun c => fst a <= fst c) after)
       (Debounce.applied d).
Proof.
  intros d.
  pose proof (debounce_reachable_consistent Args delay evs)
    as (_ & Htm & Hq & Hlen).
  fold d in Htm, Hq, Hlen.
  split; [|split; [|split; [exact Hlen | exact Hq]]].
  - destruct Htm as [-> | (h & t0 & a & before & -> & _)]; cbn; lia.
  - destruct Htm as [-> | (h & t0 & a & before & -> & -> & ->)];
      [constructor|].
    constructor; [|constructor]. cbn [fst snd].
    split; [reflexivity|]. rewrite last_snoc.
    split; [f_equal; f_equal; lia | lia].
Qed.





(** ** The loading spinner *)

Lemma loader_show_spec (msg : jsopt (list N)) (l : Loader.t) :
  match Loader.container l with
  | None => Loader.show msg l = l
  | Some c =>
      exists txt,
        Loader.show msg l
        = Loader.mk (Some (Loader.mkContainer Modal.DisplayBlock false true txt))
            true (Loader.options l)
        /\ (txt = Loader.text c
            \/ (Loader.showMessage (Loader.options l) = true
                /\ Loader.truthy msg = true
                /\ is_Some (Loader.text c)
                /\ txt = Some (Loader.or_else msg
                                 (Loader.message (Loader.options l)))))
  end.
Proof.
  destruct l as [[c|] il o]; [|reflexivity].
  unfold Loader.show, Loader.setMessage.
  cbn [Loader.container Loader.options Loader.isLoading].
  destruct (Loader.truthy msg) eqn:Hmsg; cbn [andb];
    [|eexists; split; [reflexivity | left; reflexivity]].
  destruct (Loader.showMessage o) eqn:Hshow; cbn [negb];
    [|eexists; split; [reflexivity | left; reflexivity]].
  destruct (Loader.text c) as [old|] eqn:Htext;
    cbn [Loader.container Loader.options Loader.text].
  - eexists. split; [reflexivity|]. right. repeat split. eexists; reflexivity.
  - eexists. split; [reflexivity|]. left.
    first [exact Htext | symmetry; exact Htext | reflexivity].
Qed.

Lemma loader_setMessage_spec (msg : jsopt (list N)) (l : Loader.t) :
  Loader.isLoading (Loader.setMessage msg l) = Loader.isLoading l
  /\ Loader.options (Loader.setMessage msg l) = Loader.options l
  /\ match Loader.container l with
     | None => Loader.container (Loader.setMessage msg l) = None
     | Some c =>
         exists txt,
           Loader.container (Loader.setMessage msg l)
           = Some (Loader.mkContainer (Loader.display c) (Loader.hidden c)
                     (Loader.attached c) txt)
     end.
Proof.
  destruct l as [[[d h a t]|] il o]; [|repeat split].
  unfold Loader.setMessage.
  cbn [Loader.container Loader.options Loader.isLoading Loader.text
       Loader.display Loader.hidden Loader.attached].
  destruct (Loader.showMessage o); cbn [negb];
    [destruct t|]; repeat split; eexists; reflexivity.
Qed.

Lemma loader_updateOptions_spec (given : Loader.Given) (l : Loader.t) :
  Loader.isLoading (Loader.updateOptions given l) = Loader.isLoading l
  /\ match Loader.container l with
     | None => Loader.container (Loader.updateOptions given l) = None
     | Some c =>
         exists txt,
           Loader.container (Loader.updateOptions given l)
           = Some (Loader.mkContainer (Loader.display c) (Loader.hidden c)
                     (Loader.attached c) txt)
     end.
Proof.
  destruct l as [[c|] il o]; unfold Loader.updateOptions;
    cbn [Loader.container Loader.isLoading Loader.options];
    [|split; reflexivity].
  destruct (Loader.given_message given) as [[|u s]|].
  - split; [reflexivity|]. destruct c. eexists; reflexivity.
  - pose proof (loader_setMessage_spec (JsVal (u :: s))
                  (Loader.mk (Some c) il (Loader.merge o given)))
      as (Hil & _ & Hcont).
    split; [exact Hil | exact Hcont].
  - split; [reflexivity|]. destruct c. eexists; reflexivity.
Qed.

Lemma loader_hide_spec (l : Loader.t) :
  match Loader.container l with
  | None => Loader.hide l = l
  | Some c =>
      Loader.hide l
      = Loader.mk (Some (Loader.mkContainer Modal.DisplayNone true
                           (Loader.attached c) (Loader.text c)))
          false (Loader.options l)
  end.
Proof. unfold Loader.hide. destruct (Loader.container l); reflexivity. Qed.

Lemma loader_step_shown (ev : Loader.Event) (w : Loader.World) :
  Loader.shown (Loader.loader w) ->
  Loader.shown (Loader.loader (Loader.step ev w)).
Proof.
  intros Hs.
  assert (forall msg, Loader.shown (Loader.show msg (Loader.loader w)))
    as Hshow.
  { intros msg. pose proof (loader_show_spec msg (Loader.loader w)) as H.
    destruct (Loader.container (Loader.loader w)) as [c|];
      [|rewrite H; exact Hs].
    destruct H as (txt & -> & _). intros _. eexists. repeat split. }
  assert (Loader.shown (Loader.hide (Loader.loader w))) as Hhide.
  { pose proof (loader_hide_spec (Loader.loader w)) as H.
    destruct (Loader.container (Loader.loader w)) as [c|];
      rewrite H; [discriminate | exact Hs]. }
  destruct ev as [msg| |msg|msg|given| |msg|]; cbn [Loader.step Loader.loader].
  - apply Hshow.
  - exact Hhide.
  - unfold Loader.toggle. destruct (Loader.isLoading (Loader.loader w));
      [exact Hhide | apply Hshow].
  - pose proof (loader_setMessage_spec msg (Loader.loader w))
      as (Hil & _ & Hcont).
    unfold Loader.shown. rewrite Hil. intros Htrue.
    destruct (Hs Htrue) as (c & Hc & Hd & Hh & Ha).
    rewrite Hc in Hcont. destruct Hcont as (txt & ->).
    eexists. split; [reflexivity|]. repeat split; assumption.
  - pose proof (loader_updateOptions_spec given (Loader.loader w))
      as (Hil & Hcont).
    unfold Loader.shown. rewrite Hil. intros Htrue.
    destruct (Hs Htrue) as (c & Hc & Hd & Hh & Ha).
    rewrite Hc in Hcont. destruct Hcont as (txt & ->).
    eexists. split; [reflexivity|]. repeat split; assumption.
  - discriminate.
  - apply Hshow.
  - destruct (Loader.waiting w); [exact Hs | exact Hhide].
Qed.

Lemma loader_step_concealed (ev : Loader.Event) (w : Loader.World) :
  Loader.concealed (Loader.loader w) ->
  Loader.concealed (Loader.loader (Loader.step ev w)).
Proof.
  intros Hs.
  assert (forall msg, Loader.concealed (Loader.show msg (Loader.loader w)))
    as Hshow.
  { intros msg. pose proof (loader_show_spec msg (Loader.loader w)) as H.
    destruct (Loader.container (Loader.loader w)) as [c|];
      [|rewrite H; exact Hs].
    destruct H as (txt & -> & _). discriminate. }
  assert (Loader.concealed (Loader.hide (Loader.loader w))) as Hhide.
  { pose proof (loader_hide_spec (Loader.loader w)) as H.
    destruct (Loader.container (Loader.loader w)) as [c|];
      rewrite H; [|exact Hs].
    intros _ c' [= <-]. split; reflexivity. }
  destruct ev as [msg| |msg|msg|given| |msg|]; cbn [Loader.step Loader.loader].
  - apply Hshow.
  - exact Hhide.
  - unfold Loader.toggle. destruct (Loader.isLoading (Loader.loader w));
      [exact Hhide | apply Hshow].
  - pose proof (loader_setMessage_spec msg (Loader.loader w))
      as (Hil & _ & Hcont).
    unfold Loader.concealed. rewrite Hil. intros Hfalse c' Hc'.
    destruct (Loader.container (Loader.loader w)) as [c|] eqn:Hcw;
      [|rewrite Hcont in Hc'; discriminate].
    destruct Hcont as (txt & Hcont). rewrite Hcont in Hc'.
    injection Hc' as <-. exact (Hs Hfalse c Hcw).
  - pose proof (loader_updateOptions_spec given (Loader.loader w))
      as (Hil & Hcont).
    unfold Loader.concealed. rewrite Hil. intros Hfalse c' Hc'.
    destruct (Loader.container (Loader.loader w)) as [c|] eqn:Hcw;
      [|rewrite Hcont in Hc'; discriminate].
    destruct Hcont as (txt & Hcont). rewrite Hcont in Hc'.
    injection Hc' as <-. exact (Hs Hfalse c Hcw).
  - intros _ c' [=].
  - apply Hshow.
  - destruct (Loader.waiting w); [exact Hs | exact Hhide].
Qed.

Lemma loader_step_destroyed (ev : Loader.Event) (w : Loader.World) :
  Loader.container (Loader.loader w) = None
  /\ Loader.isLoading (Loader.loader w) = false
  \/ Loader.is_destroy ev = true ->
  Loader.container (Loader.loader (Loader.step ev w)) = None
  /\ Loader.isLoading (Loader.loader (Loader.step ev w)) = false.
Proof.
  intros [[Hc Hil] | Hev].
  - destruct w as [[c il o] n]. cbn in Hc, Hil. subst c il.
    destruct ev as [msg| |msg|msg|given| |msg|];
      try (split; reflexivity).
    cbn. destruct n; split; reflexivity.
  - destruct ev; try discriminate. split; reflexivity.
Qed.

Lemma loader_create_shown (existing : option Loader.Container)
  (given : Loader.Given) :
  Loader.shown (Loader.create existing given)
  /\ (Loader.autoHide (Loader.merge Loader.defaults given) = true ->
      Loader.concealed (Loader.create existing given)).
Proof.
  unfold Loader.create, Loader.init. cbn [Loader.options Loader.isLoading].
  destruct (Loader.autoHide (Loader.merge Loader.defaults given)).
  - split; [discriminate|]. intros _ _ c [= <-]. split; reflexivity.
  - split; discriminate.
Qed.

Lemma loader_reachable_shown (existing : option Loader.Container)
  (given : Loader.Given) (evs : list Loader.Event) :
  let w := Loader.run evs (Loader.mkWorld (Loader.create existing given) 0) in
  Loader.shown (Loader.loader w)
  /\ (Loader.autoHide (Loader.merge Loader.defaults given) = true ->
      Loader.concealed (Loader.loader w))
  /\ (existsb Loader.is_destroy evs = true ->
      Loader.container (Loader.loader w) = None
      /\ Loader.isLoading (Loader.loader w) = false).
Proof.
  induction evs as [|ev evs IH] using rev_ind.
  - cbn. destruct (loader_create_shown existing given) as [Hs Hc].
    split; [exact Hs|]. split; [exact Hc | discriminate].
  - cbv zeta in IH |- *. destruct IH as (Hs & Hc & Hd).
    unfold Loader.run. rewrite foldl_app. cbn [foldl].
    split; [apply loader_step_shown; exact Hs|].
    split; [intros Ha; apply loader_step_concealed, Hc, Ha|].
    rewrite existsb_app. cbn [existsb]. rewrite orb_false_r.
    intros Hev. apply loader_step_destroyed.
    apply orb_prop in Hev as [Hev | Hev]; [left; apply Hd, Hev | right; exact Hev].
Qed.

(** X18.  A loader, after any history of calls of its methods and of
    promises of [showDuring] that settle: [isVisible()] is a boolean
    and equals the flag [isLoading]; while the flag is set the
    container is there, in the document, displayed as a block and
    without the class [hidden]; a loader that was built with
    [autoHide] has its container hidden whenever the flag is clear;
    and a loader that has been destroyed has no container and a clear
    flag for good: no method brings it back. *)
Theorem loader_flag_is_what_is_shown (existing : option Loader.Container)
  (given : Loader.Given) (evs : list Loader.Event) :
  let l := Loader.loader
             (Loader.run evs (Loader.mkWorld (Loader.create existing given) 0))
  in
  Loader.isVisible l = JsVal (Loader.isLoading l)
  /\ (Loader.isLoading l = true ->
      exists c, Loader.container l = Some c
                /\ Loader.display c = Modal.DisplayBlock
                /\ Loader.hidden c = false
                /\ Loader.attached c = true)
  /\ (Loader.autoHide (Loader.merge Loader.defaults given) = true ->
      Loader.isLoading l = false ->
      forall c, Loader.container l = Some c ->
                Loader.display c = Modal.DisplayNone
                /\ Loader.hidden c = true)
  /\ (existsb Loader.is_destroy evs = true ->
      Loader.container l = None /\ Loader.isLoading l = false).
Proof.
  intros l.
  pose proof (loader_reachable_shown existing given evs) as H.
  cbv zeta in H. fold l in H. destruct H as (Hs & Hc & Hd).
  split; [|split; [exact Hs | split; [exact Hc | exact Hd]]].
  unfold Loader.isVisible.
  destruct (Loader.isLoading l) eqn:Hil; [|reflexivity].
  destruct (Hs Hil) as (c & -> & -> & -> & _). reflexivity.
Qed.

Lemma loader_flag_is_what_is_shown_witness :
  (let l := Loader.loader
              (Loader.run [Loader.Show (JsVal (JsString.lit "Searching..."));
                           Loader.Hide; Loader.Destroy;
                           Loader.Show JsUndefined]
                 (Loader.mkWorld
                    (Loader.create None (Loader.mkGiven None None None)) 0))
   in
   Loader.container l = None /\ Loader.isLoading l = false)
  /\ (let l := Loader.loader
                 (Loader.run [Loader.Show (JsVal (JsString.lit "Searching..."))]
                    (Loader.mkWorld
                       (Loader.create None (Loader.mkGiven None None None)) 0))
      in
      exists c, Loader.container l = Some c
                /\ Loader.display c = Modal.DisplayBlock
                /\ Loader.hidden c = false
                /\ Loader.attached c = true)
  /\ (let l := Loader.loader
                 (Loader.run [Loader.Show JsUndefined; Loader.Toggle JsUndefined]
                    (Loader.mkWorld
                       (Loader.create None (Loader.mkGiven None None None)) 0))
      in
      forall c, Loader.container l = Some c ->
                Loader.display c = Modal.DisplayNone
                /\ Loader.hidden c = true).
Proof.
  split; [|split].
  - intros l.
    assert (existsb Loader.is_destroy
              [Loader.Show (JsVal (JsString.lit "Searching..."));
               Loader.Hide; Loader.Destroy; Loader.Show JsUndefined] = true)
      as Hd by (vm_compute; reflexivity).
    pose proof (loader_flag_is_what_is_shown None
                  (Loader.mkGiven None None None)
                  [Loader.Show (JsVal (JsString.lit "Searching..."));
                   Loader.Hide; Loader.Destroy; Loader.Show JsUndefined]) as H.
    cbv zeta in H. destruct H as (_ & _ & _ & H). exact (H Hd).
  - intros l.
    assert (Loader.isLoading l = true) as Hil by (vm_compute; reflexivity).
    pose proof (loader_flag_is_what_is_shown None
                  (Loader.mkGiven None None None)
                  [Loader.Show (JsVal (JsString.lit "Searching..."))]) as H.
    cbv zeta in H. destruct H as (_ & H & _). exact (H Hil).
  - intros l.
    assert (Loader.autoHide
              (Loader.merge Loader.defaults (Loader.mkGiven None None None))
            = true) as Ha by (vm_compute; reflexivity).
    assert (Loader.isLoading l = false) as Hil by (vm_compute; reflexivity).
    pose proof (loader_flag_is_what_is_shown None
                  (Loader.mkGiven None None None)
                  [Loader.Show JsUndefined; Loader.Toggle JsUndefined]) as H.
    cbv zeta in H. destruct H as (_ & _ & H & _). exact (H Ha Hil).
Defined.

(** X19.  [showDuring] does not count: when two calls of it overlap on
    one loader, the loader is hidden as soon as the first of the two
    promises settles, fulfilled or rejected, while the other one is
    still pending; and whatever came before, the flag is clear after
    every settlement. *)
Theorem loader_hides_at_first_settlement
  (existing : option Loader.Container) (given : Loader.Given)
  (evs : list Loader.Event) (first second : jsopt (list N)) :
  let before :=
    Loader.run evs (Loader.mkWorld (Loader.create existing given) 0) in
  let w := Loader.run [Loader.ShowDuring first; Loader.ShowDuring second;
                       Loader.Settle] before in
  Loader.waiting w = S (Loader.waiting before)
  /\ Loader.isLoading (Loader.loader w) = false
  /\ Loader.isVisible (Loader.loader w) = JsVal false
  /\ (existsb Loader.is_destroy evs = false ->
      exists c, Loader.container (Loader.loader w) = Some c
                /\ Loader.display c = Modal.DisplayNone
                /\ Loader.hidden c = true).
Proof.
  intros before w.
  pose proof (loader_reachable_shown existing given
                (evs ++ [Loader.ShowDuring first; Loader.ShowDuring second]))
    as H.
  cbv zeta in H. destruct H as (Hs & _).
  unfold Loader.run in Hs. rewrite foldl_app in Hs.
  fold (Loader.run evs (Loader.mkWorld (Loader.create existing given) 0)) in Hs.
  fold before in Hs. cbn [foldl] in Hs.
  set (w2 := Loader.step (Loader.ShowDuring second)
               (Loader.step (Loader.ShowDuring first) before)) in *.
  assert (w = Loader.mkWorld (Loader.hide (Loader.loader w2))
                (S (Loader.waiting before))) as Hw by reflexivity.
  rewrite Hw. clear Hw. cbn [Loader.waiting Loader.loader].
  split; [reflexivity|].
  pose proof (loader_hide_spec (Loader.loader w2)) as Hh.
  assert (Loader.isLoading (Loader.hide (Loader.loader w2)) = false) as Hil.
  { destruct (Loader.container (Loader.loader w2)) as [c|] eqn:Hc;
      rewrite Hh; [reflexivity|].
    destruct (Loader.isLoading (Loader.loader w2)) eqn:Hil; [|reflexivity].
    destruct (Hs Hil) as (c & Hc' & _). congruence. }
  split; [exact Hil|].
  split; [unfold Loader.isVisible; rewrite Hil; reflexivity|].
  intros Hnd.
  assert (forall evs' w0,
             existsb Loader.is_destroy evs' = false ->
             is_Some (Loader.container (Loader.loader w0)) ->
             is_Some (Loader.container (Loader.loader (Loader.run evs' w0))))
    as Hkeep.
  { clear. induction evs' as [|ev evs' IH]; intros w0 Hnd Hc; [exact Hc|].
    cbn [existsb] in Hnd. apply orb_false_elim in Hnd as [Hev Hnd].
    apply (IH _ Hnd). destruct Hc as [c Hc].
    destruct ev as [msg| |msg|msg|given| |msg|]; try discriminate;
      cbn [Loader.step Loader.loader].
    - pose proof (loader_show_spec msg (Loader.loader w0)) as H.
      rewrite Hc in H. destruct H as (txt & -> & _). eexists; reflexivity.
    - pose proof (loader_hide_spec (Loader.loader w0)) as H.
      rewrite Hc in H. rewrite H. eexists; reflexivity.
    - unfold Loader.toggle. destruct (Loader.isLoading (Loader.loader w0)).
      + pose proof (loader_hide_spec (Loader.loader w0)) as H.
        rewrite Hc in H. rewrite H. eexists; reflexivity.
      + pose proof (loader_show_spec msg (Loader.loader w0)) as H.
        rewrite Hc in H. destruct H as (txt & -> & _). eexists; reflexivity.
    - pose proof (loader_setMessage_spec msg (Loader.loader w0))
        as (_ & _ & H).
      rewrite Hc in H. destruct H as (txt & ->). eexists; reflexivity.
    - pose proof (loader_updateOptions_spec given (Loader.loader w0))
        as (_ & H).
      rewrite Hc in H. destruct H as (txt & ->). eexists; reflexivity.
    - pose proof (loader_show_spec msg (Loader.loader w0)) as H.
      rewrite Hc in H. destruct H as (txt & -> & _). eexists; reflexivity.
    - destruct (Loader.waiting w0); [eexists; exact Hc|].
      pose proof (loader_hide_spec (Loader.loader w0)) as H.
      rewrite Hc in H. cbn [Loader.loader]. rewrite H. eexists; reflexivity. }
  assert (is_Some (Loader.container (Loader.loader w2))) as [c Hc].
  { apply (Hkeep [Loader.ShowDuring first; Loader.ShowDuring second] before);
      [reflexivity|].
    apply Hkeep; [exact Hnd|].
    unfold Loader.create, Loader.init. cbn [Loader.options].
    destruct (Loader.autoHide (Loader.merge Loader.defaults given));
      eexists; reflexivity. }
  rewrite Hc in Hh. rewrite Hh. eexists. repeat split.
Qed.

Lemma loader_hides_at_first_settlement_witness :
  let w := Loader.run [Loader.ShowDuring JsUndefined;
                       Loader.ShowDuring JsUndefined; Loader.Settle]
             (Loader.run []
                (Loader.mkWorld
                   (Loader.create None (Loader.mkGiven None None None)) 0)) in
  exists c, Loader.container (Loader.loader w) = Some c
            /\ Loader.display c = Modal.DisplayNone
            /\ Loader.hidden c = true.
Proof.
  intros w.
  assert (existsb Loader.is_destroy [] = false) as Hnd by reflexivity.
  pose proof (loader_hides_at_first_settlement None
                (Loader.mkGiven None None None) [] JsUndefined JsUndefined)
    as H.
  cbv zeta in H. destruct H as (_ & _ & _ & H). exact (H Hnd).
Defined.

(** ** The loaders of the page *)

Lemma factory_get_set (id : list N) (l : Loader.t) (f : LoaderFactory.t) :
  LoaderFactory.get id (LoaderFactory.set id l f) = Some l.
Proof.
  induction f as [|[k l0] f IH]; cbn.
  - rewrite decide_True by reflexivity. reflexivity.
  - destruct (decide (k = id)) as [Hk | Hk]; cbn.
    + rewrite decide_True by exact Hk. reflexivity.
    + rewrite decide_False by exact Hk. exact IH.
Qed.

Lemma factory_get_update (id : list N) (g : Loader.t -> Loader.t)
  (f : LoaderFactory.t) :
  LoaderFactory.get id (LoaderFactory.update id g f)
  = g <$> LoaderFactory.get id f.
Proof.
  induction f as [|[k l0] f IH]; [reflexivity|].
  cbn [LoaderFactory.update map fst snd LoaderFactory.get].
  destruct (decide (k = id)) as [Hk | Hk].
  - cbn [LoaderFactory.get]. rewrite decide_True by exact Hk. reflexivity.
  - cbn [LoaderFactory.get]. rewrite decide_False by exact Hk. exact IH.
Qed.

Lemma factory_show_again (id dflt : list N) (message : option (list N))
  (existing : option Loader.Container) (f : LoaderFactory.t) (l : Loader.t) :
  LoaderFactory.get id f = Some l ->
  LoaderFactory.showLoader id dflt message existing f
  = LoaderFactory.update id (Loader.show JsUndefined) f.
Proof.
  intros Hl. unfold LoaderFactory.showLoader, LoaderFactory.create.
  rewrite Hl. reflexivity.
Qed.

Lemma loader_show_plain (l : Loader.t) (d : Modal.Display) (h a : bool)
  (txt : option (list N)) :
  Loader.container l = Some (Loader.mkContainer d h a txt) ->
  Loader.show JsUndefined l
  = Loader.mk (Some (Loader.mkContainer Modal.DisplayBlock false true txt))
      true (Loader.options l).
Proof.
  intros Hc. unfold Loader.show. rewrite Hc. cbn [Loader.truthy andb].
  rewrite Hc. reflexivity.
Qed.

(** X20.  The loaders of [LoaderUtils] keep their first message.  The
    first call of [showApiLoader(message)] (or of one of its two
    siblings) on a page that has no element with the id of the loader
    builds the loader and shows [message], or the default text when
    there is no argument.  Every later call finds the loader in the
    factory, so that its options, and with them the new message, are
    dropped, and calls [show()] without a message: the loader is shown
    with the text of the first call. *)
Theorem loader_utils_keep_the_first_message
  (id dflt : list N) (first : option (list N))
  (later : list (option (list N) * option Loader.Container))
  (f : LoaderFactory.t) :
  LoaderFactory.get id f = None ->
  let f' :=
    foldl (fun f call =>
             LoaderFactory.showLoader id dflt (fst call) (snd call) f)
      (LoaderFactory.showLoader id dflt first None f) later in
  LoaderFactory.get id f'
  = Some (Loader.mk
            (Some (Loader.mkContainer Modal.DisplayBlock false true
                     (Some (default dflt first))))
            true
            (Loader.mkOptions (default dflt first) true true)).
Proof.
  intros Hnew.
  induction later as [|[message existing] later IH] using rev_ind.
  - cbn [foldl]. unfold LoaderFactory.showLoader, LoaderFactory.create.
    rewrite Hnew, factory_get_update, factory_get_set. reflexivity.
  - cbv zeta in IH |- *. rewrite foldl_app. cbn [foldl fst snd].
    rewrite (factory_show_again _ _ _ _ _ _ IH), factory_get_update, IH.
    reflexivity.
Qed.

Lemma loader_utils_keep_the_first_message_witness :
  LoaderFactory.get (JsString.lit "api-loader")
    (LoaderFactory.showApiLoader (Some (JsString.lit "Saving...")) None
       (LoaderFactory.showApiLoader None None []))
  = Some (Loader.mk
            (Some (Loader.mkContainer Modal.DisplayBlock false true
                     (Some (JsString.lit "Loading..."))))
            true
            (Loader.mkOptions (JsString.lit "Loading...") true true)).
Proof.
  assert (LoaderFactory.get (JsString.lit "api-loader") [] = None) as Hnew
    by reflexivity.
  exact (loader_utils_keep_the_first_message (JsString.lit "api-loader")
           (JsString.lit "Loading...") None
           [(Some (JsString.lit "Saving..."), None)] [] Hnew).
Defined.

(** X21.  The factory keeps one loader for each id: a second
    [create] with an id that it has returns the factory as it is,
    whatever the options; after [hideAll()] no loader is active,
    whatever state the loaders were in; and [remove(id)] leaves no
    loader for [id], so that the next [create] builds a new one. *)
Theorem factory_keeps_one_loader_per_id
  (id : list N) (given given' : Loader.Given)
  (existing existing' : option Loader.Container) (f : LoaderFactory.t) :
  is_Some (LoaderFactory.get id (LoaderFactory.create id given existing f))
  /\ LoaderFactory.create id given' existing'
       (LoaderFactory.create id given existing f)
     = LoaderFactory.create id given existing f
  /\ LoaderFactory.getActive (LoaderFactory.hideAll f) = []
  /\ LoaderFactory.get id (LoaderFactory.remove id f) = None
  /\ LoaderFactory.get id
       (LoaderFactory.create id given existing (LoaderFactory.remove id f))
     = Some (Loader.create existing given).
Proof.
  assert (is_Some (LoaderFactory.get id
                     (LoaderFactory.create id given existing f))) as Hsome.
  { unfold LoaderFactory.create.
    destruct (LoaderFactory.get id f) as [l|] eqn:Hl.
    - rewrite Hl. eexists; reflexivity.
    - rewrite factory_get_set. eexists; reflexivity. }
  assert (LoaderFactory.get id (LoaderFactory.remove id f) = None) as Hgone.
  { unfold LoaderFactory.remove.
    destruct (LoaderFactory.get id f) as [l|] eqn:Hl; [|exact Hl].
    clear Hl Hsome. unfold LoaderFactory.t in *.
    induction f as [|[k l0] f IH]; [reflexivity|].
    destruct (decide (k = id)) as [Hk | Hk].
    - rewrite filter_cons_False by (cbn; intros Hne; apply Hne; exact Hk).
      exact IH.
    - rewrite filter_cons_True by exact Hk. cbn [LoaderFactory.get].
      rewrite decide_False by exact Hk. exact IH. }
  split; [exact Hsome|]. split; [|split; [|split; [exact Hgone|]]].
  - destruct Hsome as [l Hl]. unfold LoaderFactory.create at 1.
    rewrite Hl. reflexivity.
  - clear Hsome Hgone. unfold LoaderFactory.getActive, LoaderFactory.hideAll.
    induction f as [|[k l] f IH]; [reflexivity|].
    cbn [map List.filter fst snd]. rewrite IH.
    assert (LoaderFactory.is_true (Loader.isVisible (Loader.hide l)) = false)
      as ->; [|reflexivity].
    pose proof (loader_hide_spec l) as H. unfold Loader.isVisible.
    destruct (Loader.container l) as [c|] eqn:Hc; rewrite H;
      [reflexivity|].
    rewrite Hc. destruct (Loader.isLoading l); reflexivity.
  - unfold LoaderFactory.create. rewrite Hgone. apply factory_get_set.
Qed.

(** ** The calls of the detail aggregator *)

Lemma details_step_calls (Json : Type) (ev : Details.Event Json)
  (w : Details.World Json) (ids : list N) :
  Forall (fun c => Details.movie_id Json c ∈ ids /\ incomplete c)
    (Details.suspended w) ->
  Details.requested (Details.step Json ev w)
  = Details.requested w ++ flat_map calls_for (clicked [ev])
  /\ length (Details.suspended (Details.step Json ev w))
     <= length (Details.suspended w) + length (clicked [ev])
  /\ Forall (fun c => Details.movie_id Json c ∈ ids ++ clicked [ev]
                      /\ incomplete c)
       (Details.suspended (Details.step Json ev w)).
Proof.
  intros Hall.
  assert (Forall (fun c => Details.movie_id Json c ∈ ids ++ []
                           /\ incomplete c) (Details.suspended w)) as Hall'
    by (rewrite app_nil_r; exact Hall).
  destruct ev as [id|i e j|i e| | |]; cbn [Details.step clicked omap list_omap].
  - cbn [Details.openMovieDetails Details.requested Details.suspended
         flat_map calls_for].
    rewrite app_nil_r, length_app. cbn [length].
    split; [reflexivity|]. split; [lia|].
    apply Forall_app. split.
    + eapply Forall_impl; [exact Hall|]. cbn. intros c [Hin Hinc].
      split; [apply elem_of_app; left; exact Hin | exact Hinc].
    + constructor; [|constructor]. cbn. split; [set_solver | left; reflexivity].
  - cbn [flat_map length]. rewrite app_nil_r, Nat.add_0_r.
    destruct (Details.suspended w !! i) as [c|] eqn:Hi;
      [|split; [reflexivity | split; [lia | exact Hall']]].
    destruct (Details.slot Json e c) eqn:Hslot;
      [split; [reflexivity | split; [lia | exact Hall']]|].
    pose proof (Forall_lookup_1 _ _ _ _ Hall Hi) as [Hid _].
    assert (Details.movie_id Json (Details.fill Json e j c)
            = Details.movie_id Json c) as Hsame by (destruct e; reflexivity).
    cbv zeta.
    destruct (Details.details Json (Details.fill Json e j c)) as [d|] eqn:Hd;
      [destruct (Details.videos Json (Details.fill Json e j c)) as [v|] eqn:Hv;
       [destruct (Details.reviews Json (Details.fill Json e j c)) as [r|] eqn:Hr;
        [destruct (Details.similar Json (Details.fill Json e j c)) as [s|] eqn:Hs
        |]|]|].
    1: { cbn [Details.resume_fulfilled Details.forget Details.requested
              Details.suspended].
         split; [reflexivity|]. split; [rewrite length_delete by (eexists; exact Hi); lia|].
         apply Forall_delete. exact Hall'. }
    all: cbn [Details.store Details.requested Details.suspended].
    all: split; [reflexivity|].
    all: split; [rewrite length_insert; lia|].
    all: apply Forall_insert; [exact Hall'|].
    all: rewrite Hsame, app_nil_r; split; [exact Hid|]; unfold incomplete.
    + right. right. right. exact Hs.
    + right. right. left. exact Hr.
    + right. left. exact Hv.
    + left. exact Hd.
  - cbn [flat_map length]. rewrite app_nil_r, Nat.add_0_r.
    destruct (Details.suspended w !! i) as [c|] eqn:Hi;
      [|split; [reflexivity | split; [lia | exact Hall']]].
    destruct (Details.slot Json e c) eqn:Hslot;
      [split; [reflexivity | split; [lia | exact Hall']]|].
    cbn [Details.resume_rejected Details.forget Details.requested
         Details.suspended].
    split; [reflexivity|]. split; [rewrite length_delete by (eexists; exact Hi); lia|].
    apply Forall_delete. exact Hall'.
  - cbn. rewrite app_nil_r. split; [reflexivity|]. split; [lia | exact Hall'].
  - cbn. rewrite app_nil_r. split; [reflexivity|]. split; [lia | exact Hall'].
  - cbn. rewrite app_nil_r. split; [reflexivity|]. split; [lia | exact Hall'].
Qed.

Lemma clicked_app (Json : Type) (evs evs' : list (Details.Event Json)) :
  clicked (evs ++ evs') = clicked evs ++ clicked evs'.
Proof. unfold clicked. apply omap_app. Qed.

(** X22.  Every click on a card makes the four calls for the movie of
    the card, also when the modal is open and [open] does nothing, and
    nothing else makes a call: after any history, the calls made to the
    API are the four calls of each click, in the order of the clicks.
    The invocations of [openMovieDetails] that are suspended are no
    more than the clicks; each of them is for a movie that was
    clicked and still waits for one of its four answers. *)
Theorem each_click_makes_four_calls (Json : Type)
  (evs : list (Details.Event Json)) :
  let w := Details.run Json evs (Details.init Json) in
  Details.requested w = flat_map calls_for (clicked evs)
  /\ length (Details.requested w) = 4 * length (clicked evs)
  /\ length (Details.suspended w) <= length (clicked evs)
  /\ Forall (fun c => Details.movie_id Json c ∈ clicked evs /\ incomplete c)
       (Details.suspended w).
Proof.
  cbv zeta.
  assert (Details.requested (Details.run Json evs (Details.init Json))
          = flat_map calls_for (clicked evs)
          /\ length (Details.suspended
                       (Details.run Json evs (Details.init Json)))
             <= length (clicked evs)
          /\ Forall (fun c => Details.movie_id Json c ∈ clicked evs
                              /\ incomplete c)
               (Details.suspended
                  (Details.run Json evs (Details.init Json)))) as H.
  { induction evs as [|ev evs (Hreq & Hlen & Hall)] using rev_ind.
    - split; [reflexivity|]. split; [reflexivity | constructor].
    - unfold Details.run. rewrite foldl_app. cbn [foldl].
      fold (Details.run Json evs (Details.init Json)).
      destruct (details_step_calls Json ev _ _ Hall) as (Hreq' & Hlen' & Hall').
      rewrite clicked_app, flat_map_app, length_app, Hreq', Hreq.
      split; [reflexivity|]. split; [lia | exact Hall']. }
  destruct H as (Hreq & Hlen & Hall).
  split; [exact Hreq|]. split; [|split; assumption].
  rewrite Hreq. clear. induction (clicked evs) as [|id l IH]; [reflexivity|].
  cbn [flat_map calls_for length app]. rewrite IH. lia.
Qed.

(** ** The text of a feed card *)

Lemma truncateText_take (s : list N) (n : nat) :
  truncateText (JsVal s) n
  = take n s ++ (if (n <? length s)%nat then JsString.ellipsis else []).
Proof.
  destruct s as [|c s]; [destruct n; reflexivity|].
  unfold truncateText, JsString.substring0.
  destruct (Nat.ltb_spec n (length (c :: s))) as [Hlt | Hle]; [reflexivity|].
  rewrite take_ge by exact Hle. rewrite app_nil_r. reflexivity.
Qed.

(** X23.  The cards of the two feed controllers do not escape the
    overview: the text that they put into the markup is the overview
    cut by [truncateText] as it is, so that every character of the
    first 120 code units of the overview reaches the markup, and the
    text is free of [<], [>] and quotes only if these 120 code units
    are.  (The text of a [MovieCard] goes through [escapeHtml] and is
    always free of them.) *)
Theorem feed_card_overview_is_not_escaped
  (toString : float -> string) (movie : Tmdb.Movie) (s : list N) :
  Tmdb.overview movie = JsVal s ->
  let text := FeedCard.overview (FeedCard.createMovieCard toString movie) in
  (forall c, c ∈ take 120 s -> c ∈ text)
  /\ (Forall (fun c => Html.markup c = false) text
      <-> Forall (fun c => Html.markup c = false) (take 120 s))
  /\ (length s <= 120 -> text = s)
  /\ Forall (fun c => Html.markup c = false)
       (default [] (MovieCard.overview
                      (MovieCard.generateHTML toString movie
                         MovieCard.defaults))).
Proof.
  intros Hs text.
  assert (text = take 120 s
                 ++ (if (120 <? length s)%nat then JsString.ellipsis else []))
    as Htext.
  { subst text. unfold FeedCard.createMovieCard. cbn [FeedCard.overview].
    rewrite Hs. apply truncateText_take. }
  assert (Forall (fun c => Html.markup c = false)
            (if (120 <? length s)%nat then JsString.ellipsis else []))
    as Htail by (destruct (120 <? length s)%nat; repeat constructor).
  split; [|split; [|split]].
  - intros c Hc. rewrite Htext. apply elem_of_app. left. exact Hc.
  - rewrite Htext, Forall_app. split; [intros [H _]; exact H|].
    intros H. split; [exact H | exact Htail].
  - intros Hle. rewrite Htext.
    destruct (Nat.ltb_spec 120 (length s)) as [Hlt | _]; [lia|].
    rewrite take_ge by exact Hle. apply app_nil_r.
  - unfold MovieCard.generateHTML.
    cbn [MovieCard.overview MovieCard.showOverview MovieCard.defaults].
    apply escapeHtml_no_markup.
Qed.

Lemma feed_card_overview_is_not_escaped_witness :
  FeedCard.overview
    (FeedCard.createMovieCard (fun _ => "?"%string)
       (Tmdb.mkMovie 1 (JsVal (JsString.lit "Dune")) JsNull
          (JsVal (JsString.lit "<b>Arrakis</b>"))))
  = JsString.lit "<b>Arrakis</b>".
Proof.
  assert (Tmdb.overview
            (Tmdb.mkMovie 1 (JsVal (JsString.lit "Dune")) JsNull
               (JsVal (JsString.lit "<b>Arrakis</b>")))
          = JsVal (JsString.lit "<b>Arrakis</b>")) as Hs by reflexivity.
  assert (length (JsString.lit "<b>Arrakis</b>") <= 120) as Hle
    by (vm_compute; lia).
  pose proof (feed_card_overview_is_not_escaped (fun _ => "?"%string)
                (Tmdb.mkMovie 1 (JsVal (JsString.lit "Dune")) JsNull
                   (JsVal (JsString.lit "<b>Arrakis</b>")))
                (JsString.lit "<b>Arrakis</b>") Hs) as H.
  cbv zeta in H. destruct H as (_ & _ & H & _). exact (H Hle).
Defined.
